(** * MarchingCubesVisualizer: the extraction core of [MarchingCubes.py]

    A shallow embedding of [marchingCubesPolygons], of the normalisation
    phase of [MarchingCubesVisualizer.calculateWorldValues] and of
    [MarchingCubesVisualizer.findPolygons], followed by the properties the
    specification states about them.

    Python [float]s are IEEE 754 binary64 numbers: they are modelled by
    Rocq's primitive [float]s, whose operations are the same binary64
    operations.  A Python [IndexError] is the [None] of the [option] monad. *)

From Stdlib Require Import List Arith Lia Bool ZArith Permutation.
From Stdlib Require Import Uint63 Floats.
From Stdlib Require String Ascii DecimalString.
Import ListNotations.
Import String.StringSyntax.
Delimit Scope string_scope with string.

(** ** The error monad: [None] is an uncaught Python exception *)

Definition bind {A B : Type} (m : option A) (f : A -> option B) : option B :=
  match m with
  | Some a => f a
  | None => None
  end.

Notation "x <- m ;; k" := (bind m (fun x => k))
  (at level 61, m at next level, right associativity).

(** [for i in l: s = body(s, i)], stopping at the first exception. *)
Fixpoint foldM {S I : Type} (body : S -> I -> option S) (l : list I) (s : S)
  : option S :=
  match l with
  | [] => Some s
  | i :: l' => s' <- body s i ;; foldM body l' s'
  end.

(** [range(n)] *)
Definition range (n : nat) : list nat := seq 0 n.

(** ** Python numbers *)

(** Conversion of a Python [int] to [float], as true division performs it;
    exact for the small integers of this program. *)
Definition float_of_int (z : Z) : float :=
  match z with
  | Z0 => PrimFloat.zero
  | Zpos _ => PrimFloat.of_uint63 (Uint63.of_Z z)
  | Zneg _ => PrimFloat.opp (PrimFloat.of_uint63 (Uint63.of_Z (Z.opp z)))
  end.

(** [a / b] on two Python [int]s. *)
Definition int_truediv (a b : Z) : float :=
  PrimFloat.div (float_of_int a) (float_of_int b).

(** [x > y] on floats. *)
Definition gt (x y : float) : bool := PrimFloat.ltb y x.

(** [p != q] on Python [bool]s. *)
Definition bool_ne (p q : bool) : bool := negb (Bool.eqb p q).

(** ** [marchingCubesPolygons] *)

Definition corner : Type := (Z * Z * Z)%type.
Definition point : Type := (float * float * float)%type.
Definition edge : Type := (nat * nat)%type.

Definition VERTICES : list corner :=
  [ (0,0,0); (1,0,0); (1,1,0); (0,1,0);
    (0,0,1); (1,0,1); (1,1,1); (0,1,1) ]%Z.

Definition EDGES : list edge :=
  [ (0,1); (1,2); (2,3); (0,3);
    (0,4); (1,5); (2,6); (3,7);
    (4,5); (5,6); (6,7); (4,7) ].

(** [VERTICES[i]]; every index of [EDGES] is below 8 ([EDGES_in_range]), so
    the default is never reached. *)
Definition vertex (i : nat) : corner := nth i VERTICES (0,0,0)%Z.

(** First loop: [for edge in EDGES: if (values[edge[0]] > threshold) !=
    (values[edge[1]] > threshold): activeEdges.append(edge)]. *)
Fixpoint activeEdgesOf (values : list float) (threshold : float)
    (edges : list edge) : option (list edge) :=
  match edges with
  | [] => Some []
  | e :: rest =>
      v0 <- nth_error values (fst e) ;;
      v1 <- nth_error values (snd e) ;;
      tl <- activeEdgesOf values threshold rest ;;
      Some (if bool_ne (gt v0 threshold) (gt v1 threshold)
            then e :: tl else tl)
  end.

(** [tuple((a+b)/2 for a,b in zip(VERTICES[edge[0]], VERTICES[edge[1]]))] *)
Definition midpoint (e : edge) : point :=
  let '(a0, a1, a2) := vertex (fst e) in
  let '(b0, b1, b2) := vertex (snd e) in
  (int_truediv (a0 + b0) 2, int_truediv (a1 + b1) 2, int_truediv (a2 + b2) 2).

(** The sort key [lambda item: ((item[0]-a[0])**2 + (item[1]-a[1])**2 +
    (item[2]-a[2])**2)**(1/2)].  [x**2] is the product [x*x] and
    [x**(1/2)] is taken as the binary64 square root; the keys are only
    compared with each other, and on the sums met here (multiples of 0.25
    up to 3) the power and the square root order the keys alike. *)
Definition square (x : float) : float := PrimFloat.mul x x.

Definition sortKey (a item : point) : float :=
  let '(a0, a1, a2) := a in
  let '(i0, i1, i2) := item in
  PrimFloat.sqrt
    (PrimFloat.add
       (PrimFloat.add (square (PrimFloat.sub i0 a0))
                      (square (PrimFloat.sub i1 a1)))
       (square (PrimFloat.sub i2 a2))).

(** [sorted(l, key=key)]: Python's sort is stable and compares keys with
    [<] only; on the lists of at most 12 items met here it is an insertion
    sort.  [insert] puts [x], which comes from before the items of [l],
    after the items whose key is strictly smaller. *)
Fixpoint insert (key : point -> float) (x : point) (l : list point)
  : list point :=
  match l with
  | [] => [x]
  | y :: l' =>
      if PrimFloat.ltb (key y) (key x) then y :: insert key x l'
      else x :: y :: l'
  end.

Fixpoint sorted (key : point -> float) (l : list point) : list point :=
  match l with
  | [] => []
  | x :: l' => insert key x (sorted key l')
  end.

(** One turn of the third loop:
    [a = polygonVertices[index];
     polygonVertices[index+1:] = sorted(polygonVertices[index+1:], key=...)]. *)
Definition sortStep (polygonVertices : list point) (index : nat)
  : option (list point) :=
  a <- nth_error polygonVertices index ;;
  Some (firstn (S index) polygonVertices
        ++ sorted (sortKey a) (skipn (S index) polygonVertices)).

Definition marchingCubesPolygons (values : list float) (threshold : float)
  : option (list point) :=
  activeEdges <- activeEdgesOf values threshold EDGES ;;
  let polygonVertices := map midpoint activeEdges in
  foldM sortStep (range (length polygonVertices)) polygonVertices.

(** ** [MarchingCubesVisualizer]: the world and the polygon grid *)

(** A list of lists of lists, indexed [g[x][y][z]].  The comprehensions of
    [__init__] build every inner list afresh, so no two cells are aliases
    and an assignment to a cell is an update of the nested list. *)
Definition grid (A : Type) : Type := list (list (list A)).

(** [[[[v for x in range(n)] for y in range(n)] for z in range(n)]] *)
Definition alloc {A : Type} (n : nat) (v : A) : grid A :=
  repeat (repeat (repeat v n) n) n.

(** [g[x][y][z]] *)
Definition get3 {A : Type} (g : grid A) (x y z : nat) : option A :=
  plane <- nth_error g x ;;
  row <- nth_error plane y ;;
  nth_error row z.

(** [l[i] = v]; an index out of range raises. *)
Fixpoint set_nth {A : Type} (l : list A) (i : nat) (v : A) : option (list A) :=
  match l, i with
  | [], _ => None
  | _ :: l', 0 => Some (v :: l')
  | a :: l', S i' => l'' <- set_nth l' i' v ;; Some (a :: l'')
  end.

(** [g[x][y][z] = v] *)
Definition set3 {A : Type} (g : grid A) (x y z : nat) (v : A)
  : option (grid A) :=
  plane <- nth_error g x ;;
  row <- nth_error plane y ;;
  row' <- set_nth row z v ;;
  plane' <- set_nth plane y row' ;;
  set_nth g x plane'.

(** [for x in rx: for y in ry: for z in rz: s = body(s, x, y, z)] *)
Definition for3 {S : Type} (rx ry rz : list nat)
    (body : S -> nat -> nat -> nat -> option S) (s : S) : option S :=
  foldM (fun s x =>
    foldM (fun s y =>
      foldM (fun s z => body s x y z) rz s) ry s) rx s.

(** [range(n)] for a Python [int]: empty when [n] is not positive. *)
Definition rangeZ (n : Z) : list nat := range (Z.to_nat n).

(** The attributes of the visualizer that the extraction core uses. *)
Record Visualizer : Type := mkVisualizer {
  worldSize : Z;
  world : grid float;
  worldThreshold : float;
  polygons : grid (list point)
}.

(** The 8 corner samples of the cube at (x,y,z), as [findPolygons] lists
    them. *)
Definition cubeValues (w : grid float) (x y z : nat) : option (list float) :=
  v0 <- get3 w x y z ;;
  v1 <- get3 w (x+1) y z ;;
  v2 <- get3 w (x+1) (y+1) z ;;
  v3 <- get3 w x (y+1) z ;;
  v4 <- get3 w x y (z+1) ;;
  v5 <- get3 w (x+1) y (z+1) ;;
  v6 <- get3 w (x+1) (y+1) (z+1) ;;
  v7 <- get3 w x (y+1) (z+1) ;;
  Some [v0; v1; v2; v3; v4; v5; v6; v7].

(** The body of the loops of [findPolygons]; the right-hand side is
    evaluated before the cell is assigned. *)
Definition findPolygonsCell (w : grid float) (threshold : float)
    (polys : grid (list point)) (x y z : nat) : option (grid (list point)) :=
  values <- cubeValues w x y z ;;
  polygon <- marchingCubesPolygons values threshold ;;
  set3 polys x y z polygon.

Definition findPolygons (self : Visualizer) : option Visualizer :=
  let r := rangeZ (worldSize self - 1) in
  polys <- for3 r r r (findPolygonsCell (world self) (worldThreshold self))
             (polygons self) ;;
  Some (mkVisualizer (worldSize self) (world self) (worldThreshold self) polys).

(** [np.maximum] and [np.minimum] on two binary64 numbers: a NaN is
    propagated. *)
Definition np_maximum (a b : float) : float :=
  if PrimFloat.leb b a || PrimFloat.is_nan a then a else b.

Definition np_minimum (a b : float) : float :=
  if PrimFloat.leb a b || PrimFloat.is_nan a then a else b.

(** All the samples of a grid, in index order. *)
Definition samples {A : Type} (g : grid A) : list A := concat (concat g).

(** [np.max(world)] and [np.min(world)]: the reduction of all the samples;
    a [ValueError] on an array without elements. *)
Definition np_max (w : grid float) : option float :=
  match samples w with
  | [] => None
  | v :: l => Some (fold_left np_maximum l v)
  end.

Definition np_min (w : grid float) : option float :=
  match samples w with
  | [] => None
  | v :: l => Some (fold_left np_minimum l v)
  end.

(** First phase of [calculateWorldValues]: the noise field.  [snoise4] is
    the function of the [noise] package and [pNoiseSeed] the number that
    [random.random()] returned. *)
Definition generateCell (snoise4 : float -> float -> float -> float -> float)
    (pNoiseSeed : float) (n : Z) (w : grid float) (x y z : nat)
  : option (grid float) :=
  set3 w x y z
    (snoise4 (int_truediv (Z.of_nat x) n) (int_truediv (Z.of_nat y) n)
             (int_truediv (Z.of_nat z) n) pNoiseSeed).

(** Second phase: [world[x][y][z] = (world[x][y][z] - worldMin) /
    (worldMax - worldMin)].  [worldMax] and [worldMin] are [np.float64]
    numbers, so are the difference and the quotient: a division by zero
    gives an infinity or a NaN and does not raise. *)
Definition normalizeCell (worldMax worldMin : float) (w : grid float)
    (x y z : nat) : option (grid float) :=
  v <- get3 w x y z ;;
  set3 w x y z
    (PrimFloat.div (PrimFloat.sub v worldMin) (PrimFloat.sub worldMax worldMin)).

Definition normalizeWorld (n : Z) (w : grid float) : option (grid float) :=
  worldMax <- np_max w ;;
  worldMin <- np_min w ;;
  let r := rangeZ n in
  for3 r r r (normalizeCell worldMax worldMin) w.

Definition calculateWorldValues
    (snoise4 : float -> float -> float -> float -> float) (pNoiseSeed : float)
    (self : Visualizer) : option Visualizer :=
  let n := worldSize self in
  let r := rangeZ n in
  w <- for3 r r r (generateCell snoise4 pNoiseSeed n) (world self) ;;
  w' <- normalizeWorld n w ;;
  Some (mkVisualizer n w' (worldThreshold self) (polygons self)).

(** The part of [__init__] that builds the world and the polygon grid from
    the [worldSize] argument. *)
Definition init (snoise4 : float -> float -> float -> float -> float)
    (pNoiseSeed : float) (worldSizeArg : Z) : option Visualizer :=
  let n := (worldSizeArg + 1)%Z in
  let self := mkVisualizer n (alloc (Z.to_nat n) 0%float) 0.5%float [] in
  self <- calculateWorldValues snoise4 pNoiseSeed self ;;
  findPolygons
    (mkVisualizer (worldSize self) (world self) (worldThreshold self)
       (alloc (Z.to_nat n) [])).

(** Number of entries of a grid. *)
Definition entries {A : Type} (g : grid A) : nat := length (samples g).

(** A grid of [n] by [n] by [n] entries. *)
Definition cubic {A : Type} (n : nat) (g : grid A) : Prop :=
  length g = n /\
  Forall (fun plane => length plane = n /\
                       Forall (fun row : list A => length row = n) plane) g.

(** The world and the polygon grid have the side [worldSize], as [__init__]
    allocates them. *)
Definition well_formed (self : Visualizer) : Prop :=
  cubic (Z.to_nat (worldSize self)) (world self) /\
  cubic (Z.to_nat (worldSize self)) (polygons self).

(** ** Reference definitions, in the specification's words *)

(** Corner [i] is strictly greater than the threshold. *)
Definition above (values : list float) (threshold : float) (i : nat) : bool :=
  match nth_error values i with
  | Some v => gt v threshold
  | None => false
  end.

(** The endpoints of [e] straddle the threshold: exactly one of them is
    strictly greater. *)
Definition straddles (values : list float) (threshold : float) (e : edge)
  : bool :=
  bool_ne (above values threshold (fst e)) (above values threshold (snd e)).

(** Number of the 12 edges that straddle, by enumeration of the table. *)
Definition straddle_count (values : list float) (threshold : float) : nat :=
  length (filter (straddles values threshold) EDGES).

(** Number of corners strictly greater than the threshold. *)
Definition above_count (values : list float) (threshold : float) : nat :=
  length (filter (fun v => gt v threshold) values).

(** The greedy chain: keep the first vertex, sort the remaining ones by
    distance to it, fix that order and go on from the next vertex.  The
    first argument bounds the number of turns; [greedy_chain] gives it the
    length of the list, one turn per vertex. *)
Fixpoint chain (turns : nat) (l : list point) : list point :=
  match turns, l with
  | S turns', a :: rest => a :: chain turns' (sorted (sortKey a) rest)
  | _, _ => l
  end.

Definition greedy_chain (l : list point) : list point := chain (length l) l.

(** A vertex with one coordinate 0.5 and the two others 0 or 1. *)
Definition zero_or_one (c : float) : Prop := c = 0%float \/ c = 1%float.

Definition edge_centre (p : point) : Prop :=
  let '(x, y, z) := p in
  (x = 0.5%float /\ zero_or_one y /\ zero_or_one z) \/
  (zero_or_one x /\ y = 0.5%float /\ zero_or_one z) \/
  (zero_or_one x /\ zero_or_one y /\ z = 0.5%float).

(** Number of coordinates that compare equal ([==]) to 0.5. *)
Definition halves (p : point) : nat :=
  let '(x, y, z) := p in
  (if PrimFloat.eqb x 0.5 then 1 else 0) +
  (if PrimFloat.eqb y 0.5 then 1 else 0) +
  (if PrimFloat.eqb z 0.5 then 1 else 0).

(** The point lies in the closed unit cube. *)
Definition in_unit_cube (p : point) : Prop :=
  let '(x, y, z) := p in
  (PrimFloat.leb 0 x && PrimFloat.leb x 1 &&
   PrimFloat.leb 0 y && PrimFloat.leb y 1 &&
   PrimFloat.leb 0 z && PrimFloat.leb z 1) = true.

(** The example cube of the specification. *)
#[local] Set Warnings "-inexact-float".
Definition example_values : list float :=
  [0.1; 0.9; 0.9; 0.1; 0.1; 0.9; 0.9; 0.1]%float.
#[local] Set Warnings "inexact-float".

(** The midpoints of the 12 edges, in table order. *)
Definition MIDPOINTS : list point :=
  [ (0.5, 0, 0); (1, 0.5, 0); (0.5, 1, 0); (0, 0.5, 0);
    (0, 0, 0.5); (1, 0, 0.5); (1, 1, 0.5); (0, 1, 0.5);
    (0.5, 0, 1); (1, 0.5, 1); (0.5, 1, 1); (0, 0.5, 1) ]%float.

(** The coordinates of a point as sign, mantissa and exponent: equal
    points have equal images, and the images have a decidable equality. *)
Definition point_image (p : point) : spec_float * spec_float * spec_float :=
  let '(x, y, z) := p in (Prim2SF x, Prim2SF y, Prim2SF z).

(** The arithmetic mean of two corner coordinates, and the midpoint of the
    segment between two corner positions. *)
Definition mean (u v : Z) : float :=
  PrimFloat.div (PrimFloat.add (float_of_int u) (float_of_int v)) 2.

Definition corner_midpoint (A B : corner) : point :=
  let '(a0, a1, a2) := A in
  let '(b0, b1, b2) := B in
  (mean a0 b0, mean a1 b1, mean a2 b2).

(** The polygon as a function of the 8 comparison results
    [values[i] > threshold]. *)
Definition bit_straddles (bits : list bool) (e : edge) : bool :=
  bool_ne (nth (fst e) bits false) (nth (snd e) bits false).

Definition polygon_of_bits (bits : list bool) : list point :=
  greedy_chain (map midpoint (filter (bit_straddles bits) EDGES)).

(** All lists of [n] booleans. *)
Fixpoint all_bits (n : nat) : list (list bool) :=
  match n with
  | 0 => [[]]
  | S n' => map (cons true) (all_bits n') ++ map (cons false) (all_bits n')
  end.


(** The assignment [g[x][y][z] = F(x, y, z, g[x][y][z])], the common form
    of the loop bodies over a grid; the index is the triple (x, (y, z)). *)
Definition cell_update {A : Type} (F : nat -> nat -> nat -> A -> option A)
    (g : grid A) (i : nat * (nat * nat)) : option (grid A) :=
  let '(x, (y, z)) := i in
  old <- get3 g x y z ;;
  v <- F x y z old ;;
  set3 g x y z v.

(** The polygon of the cube at (x,y,z) of a world. *)
Definition cubePolygon (w : grid float) (threshold : float) (x y z : nat)
  : option (list point) :=
  values <- cubeValues w x y z ;;
  marchingCubesPolygons values threshold.

(** A world of side [n] given by a function of the coordinates. *)
Definition field (n : nat) (f : nat -> nat -> nat -> float) : grid float :=
  map (fun x => map (fun y => map (fun z => f x y z) (range n)) (range n))
      (range n).

(** Two worlds of side 3 that differ in the sample at (2,2,2) only, and the
    visualizers that hold them, with the polygon grid as [__init__]
    allocates it. *)
Definition example_world : grid float :=
  field 3 (fun x y z => if x + y + z =? 0 then 0.75%float else 0.25%float).

Definition example_world_mutated : grid float :=
  field 3 (fun x y z => if x + y + z =? 0 then 0.75%float
                        else if x + y + z =? 6 then 1%float else 0.25%float).

Definition example_visualizer : Visualizer :=
  mkVisualizer 3 example_world 0.5%float (alloc 3 []).

Definition example_visualizer_mutated : Visualizer :=
  mkVisualizer 3 example_world_mutated 0.5%float (alloc 3 []).

(** The sample that the first phase of [calculateWorldValues] stores at
    (x,y,z) in a world of side [n]. *)
Definition noiseSample (snoise4 : float -> float -> float -> float -> float)
    (pNoiseSeed : float) (n : Z) (x y z : nat) : float :=
  snoise4 (int_truediv (Z.of_nat x) n) (int_truediv (Z.of_nat y) n)
          (int_truediv (Z.of_nat z) n) pNoiseSeed.

(** A stand-in for the noise function in the examples. *)
Definition example_noise (x y z w : float) : float :=
  PrimFloat.add (PrimFloat.add x (PrimFloat.mul y z)) w.

(** ** [mainLoop]: the mouse wheel *)

(** The [MOUSEBUTTONDOWN] branch of the event loop: button 5 raises the
    threshold by 0.01 and caps it at 1, button 4 lowers it by 0.01 and
    stops it at 0; whatever the button is, the polygons are then computed
    again. *)
#[local] Set Warnings "-inexact-float".
Definition mouseButtonDown (button : Z) (self : Visualizer)
  : option Visualizer :=
  let t5 :=
    if (button =? 5)%Z then
      let t := PrimFloat.add (worldThreshold self) 0.01 in
      if gt t 1.0 then 1%float else t
    else worldThreshold self in
  let t4 :=
    if (button =? 4)%Z then
      let t := PrimFloat.sub t5 0.01 in
      if PrimFloat.ltb t 0.0 then 0%float else t
    else t5 in
  findPolygons (mkVisualizer (worldSize self) (world self) t4 (polygons self)).
#[local] Set Warnings "inexact-float".

(** ** [debugTimer.debugger] *)

Record debugger : Type := mkDebugger {
  times : list float;
  tags : list String.string
}.

(** [debugger()] *)
Definition debugger_init : debugger := mkDebugger [] [].

(** [log(tag)]; [now] is the number that [time.perf_counter()] returns. *)
Definition log (now : float) (tag : String.string) (self : debugger)
  : debugger :=
  mkDebugger (times self ++ [now]) (tags self ++ [tag]).

(** What [report] prints: the rule, then one line per task.  A line is
    ['{:>20}: {:<7f}'.format(tag, delta)]; the model keeps its two
    arguments. *)
Inductive line : Type :=
| Rule
| Task (tag : String.string) (delta : float).

(** [for id in l: out.append(f(id))], stopping at the first exception. *)
Fixpoint mapM {I B : Type} (f : I -> option B) (l : list I)
  : option (list B) :=
  match l with
  | [] => Some []
  | i :: l' => b <- f i ;; bs <- mapM f l' ;; Some (b :: bs)
  end.

(** [report()]: the printed lines and the debugger after the call. *)
Definition report (self : debugger) : option (list line * debugger) :=
  tasks <- mapM (fun id =>
                   t1 <- nth_error (times self) id ;;
                   t0 <- nth_error (times self) (id - 1) ;;
                   let delta := PrimFloat.sub t1 t0 in
                   tag <- nth_error (tags self) id ;;
                   Some (Task tag delta))
                (seq 1 (length (times self) - 1)) ;;
  Some (Rule :: tasks, mkDebugger [] []).

(** The lines that a report is to show for a list of logged calls, each
    with its time: every call but the first, with the time since the call
    before it. *)
Fixpoint tasks_of (calls : list (float * String.string)) : list line :=
  match calls with
  | c0 :: ((c1 :: _) as rest) =>
      Task (snd c1) (PrimFloat.sub (fst c1) (fst c0)) :: tasks_of rest
  | _ => []
  end.

(** ** [main]: the command line *)

(** [sub in s] on two strings. *)
Fixpoint str_in (sub s : String.string) : bool :=
  String.prefix sub s ||
  match s with
  | String.EmptyString => false
  | String.String _ s' => str_in sub s'
  end.

(** [bool(s)] on a string. *)
Definition str_truthy (s : String.string) : bool :=
  negb (String.eqb s ""%string).

(** The five arguments that [main] passes to the constructor. *)
Record config : Type := mkConfig {
  cfg_screenWidth : Z;
  cfg_screenHeight : Z;
  cfg_worldSize : Z;
  cfg_debug : bool;
  cfg_radius : Z
}.

(** How the option loop ends: with the arguments of the constructor, with
    [sys.exit()] after the help text, or with the [ValueError] of [int]. *)
Inductive parsed : Type :=
| Start (c : config)
| SystemExit
| ValueError.

Definition defaults : config := mkConfig 800 600 10 false 20.

(** The body of [for opt, arg in opts].  [int] is Python's [int] on a
    string, [None] being its [ValueError]; [str_is] is the identity test
    [is] between two strings, which the language leaves to the
    implementation.  [debug] holds a [bool], which is never identical to the
    string ['True']. *)
Definition option_step (int : String.string -> option Z)
    (str_is : String.string -> String.string -> bool)
    (c : config) (oa : String.string * String.string) : parsed :=
  let '(opt, arg) := oa in
  if str_in opt "-h"%string then SystemExit
  else if String.eqb opt "-w"%string || String.eqb opt "--worldSize"%string then
    match int arg with
    | None => ValueError
    | Some k =>
        Start (mkConfig (cfg_screenWidth c) (cfg_screenHeight c)
                 (if negb (k mod 2 =? 0)%Z then k + 1 else k)%Z
                 (cfg_debug c) (cfg_radius c))
    end
  else if String.eqb opt "-r"%string || String.eqb opt "--viewRadius"%string then
    match int arg with
    | None => ValueError
    | Some k =>
        Start (mkConfig (cfg_screenWidth c) (cfg_screenHeight c)
                 (cfg_worldSize c) (cfg_debug c) k)
    end
  else if String.eqb opt "-d"%string || String.eqb opt "--debug"%string then
    let debug :=
      if false || str_truthy "true"%string then true
      else if str_is arg "False"%string || str_truthy "false"%string then false
      else str_truthy arg in
    Start (mkConfig (cfg_screenWidth c) (cfg_screenHeight c)
             (cfg_worldSize c) debug (cfg_radius c))
  else if String.eqb opt "-x"%string || String.eqb opt "--screenWidth"%string then
    match int arg with
    | None => ValueError
    | Some k =>
        Start (mkConfig k (cfg_screenHeight c) (cfg_worldSize c)
                 (cfg_debug c) (cfg_radius c))
    end
  else if String.eqb opt "-y"%string || String.eqb opt "--screenHeight"%string then
    match int arg with
    | None => ValueError
    | Some k =>
        Start (mkConfig (cfg_screenWidth c) k (cfg_worldSize c)
                 (cfg_debug c) (cfg_radius c))
    end
  else Start c.

(** The option loop of [main] on the pairs that [getopt] returns. *)
Fixpoint option_loop (int : String.string -> option Z)
    (str_is : String.string -> String.string -> bool)
    (opts : list (String.string * String.string)) (c : config) : parsed :=
  match opts with
  | [] => Start c
  | oa :: rest =>
      match option_step int str_is c oa with
      | Start c' => option_loop int str_is rest c'
      | stop => stop
      end
  end.

Definition main_options (int : String.string -> option Z)
    (str_is : String.string -> String.string -> bool)
    (opts : list (String.string * String.string)) : parsed :=
  option_loop int str_is opts defaults.

(** A reader of decimal numbers for the examples. *)
Definition example_int (s : String.string) : option Z :=
  option_map Z.of_int (DecimalString.NilZero.int_of_string s).

(** The option is [-d] or [--debug]. *)
Definition is_debug_option (opt : String.string) : bool :=
  String.eqb opt "-d"%string || String.eqb opt "--debug"%string.

(** ** [keyboardController] *)

(** The calls to OpenGL that [keyboardController] makes. *)
Inductive gl_call : Type :=
| glEnable_GL_CULL_FACE
| glCullFace_GL_BACK
| glDisable_GL_CULL_FACE.

(** The keys that [keyboardController] reads from
    [pygame.key.get_pressed()]. *)
Record keys : Type := mkKeys {
  K_r : bool; K_p : bool; K_o : bool; K_i : bool;
  K_w : bool; K_s : bool; K_d : bool; K_a : bool
}.

(** The visualizer with the attributes of the user interface: [core] holds
    the attributes of [Visualizer]; [cameraPolar] is the list (r, theta,
    phi); [gl] is the sequence of the OpenGL calls made so far. *)
Record App : Type := mkApp {
  core : Visualizer;
  FPS : Z;
  seedWorldTimer : Z;
  displayMode : Z;
  cameraPolar : float * float * float;
  cameraPosition : float * float * float;
  dt : Z;
  gl : list gl_call
}.

Definition DISPLAYMODE_POINTS : Z := 0.
Definition DISPLAYMODE_MESH : Z := 1.
Definition DISPLAYMODE_WIREFRAME : Z := 2.

(** [np.pi] *)
Definition np_pi : float := 0x1.921fb54442d18p+1%float.

(** [polarCameraToCartesian]; [np_sin] and [np_cos] are numpy's sine and
    cosine. *)
Definition polarCameraToCartesian (np_sin np_cos : float -> float)
    (polar : float * float * float) : float * float * float :=
  let '(r, theta, phi) := polar in
  let rad (a : float) :=
    PrimFloat.div (PrimFloat.mul a np_pi) (float_of_int 180) in
  let x := PrimFloat.mul (PrimFloat.mul r (np_sin (rad theta)))
                         (np_sin (rad phi)) in
  let y := PrimFloat.mul r (np_cos (rad phi)) in
  let z := PrimFloat.mul (PrimFloat.mul r (np_cos (rad theta)))
                         (np_sin (rad phi)) in
  (x, y, z).

#[local] Set Warnings "-inexact-float".
(** The camera part of [keyboardController]: the four tests on W, S, D and
    A, in this order. *)
Definition moveCamera (k : keys) (dt : Z) (polar : float * float * float)
  : float * float * float :=
  let '(r, theta, phi) := polar in
  let step := PrimFloat.mul 0.08 (float_of_int dt) in
  let phi :=
    if K_w k then
      let p := PrimFloat.sub phi step in
      if PrimFloat.ltb p (float_of_int 1) then 1.0%float else p
    else phi in
  let phi :=
    if K_s k then
      let p := PrimFloat.add phi step in
      if gt p (float_of_int 179) then float_of_int 179 else p
    else phi in
  let theta :=
    if K_d k then
      let t := PrimFloat.add theta step in
      if gt t (float_of_int 180) then PrimFloat.sub t (float_of_int 360) else t
    else theta in
  let theta :=
    if K_a k then
      let t := PrimFloat.sub theta step in
      if PrimFloat.leb t (float_of_int (-180))
      then PrimFloat.add t (float_of_int 360) else t
    else theta in
  (r, theta, phi).
#[local] Set Warnings "inexact-float".

(** [keyboardController]: [k] is the state of the keys, [pNoiseSeed] the
    number that [random.random()] returns if the world is built anew.
    [int(self.FPS/4)] is the quotient truncated towards zero. *)
Definition keyboardController
    (snoise4 : float -> float -> float -> float -> float)
    (np_sin np_cos : float -> float)
    (k : keys) (pNoiseSeed : float) (self : App) : option App :=
  timer_core <-
    (if K_r k then
       if (seedWorldTimer self =? 0)%Z then
         c <- calculateWorldValues snoise4 pNoiseSeed (core self) ;;
         c' <- findPolygons c ;;
         Some (Z.quot (FPS self) 4, c')
       else Some (seedWorldTimer self, core self)
     else Some (seedWorldTimer self, core self)) ;;
  let '(timer, c) := timer_core in
  let timer := if (timer =? 0)%Z then timer else (timer - 1)%Z in
  let '(mode, calls) :=
    if K_p k then
      (DISPLAYMODE_POINTS, [glEnable_GL_CULL_FACE; glCullFace_GL_BACK])
    else if K_o k then (DISPLAYMODE_MESH, [glDisable_GL_CULL_FACE])
    else if K_i k then (DISPLAYMODE_WIREFRAME, [])
    else (displayMode self, []) in
  let polar := moveCamera k (dt self) (cameraPolar self) in
  Some (mkApp c (FPS self) timer mode polar
          (polarCameraToCartesian np_sin np_cos polar) (dt self)
          (gl self ++ calls)).

(** Consecutive calls of [keyboardController], one per frame, each with
    its keys and its seed. *)
Fixpoint keyboardFrames
    (snoise4 : float -> float -> float -> float -> float)
    (np_sin np_cos : float -> float)
    (inputs : list (keys * float)) (self : App) : option App :=
  match inputs with
  | [] => Some self
  | (k, seed) :: rest =>
      self' <- keyboardController snoise4 np_sin np_cos k seed self ;;
      keyboardFrames snoise4 np_sin np_cos rest self'
  end.

(** An application state for the examples: the example visualizer, 6 frames
    after the world was built. *)
Definition example_app : App :=
  mkApp example_visualizer 30 6 DISPLAYMODE_POINTS
    (float_of_int 20, float_of_int 0, float_of_int 90)
    (float_of_int 0, float_of_int 0, float_of_int 20) 33 [].

Definition all_keys : keys := mkKeys true true true true true true true true.

(** The same with the timer at 0. *)
Definition example_app_ready : App :=
  mkApp example_visualizer 30 0 DISPLAYMODE_POINTS
    (float_of_int 20, float_of_int 0, float_of_int 90)
    (float_of_int 0, float_of_int 0, float_of_int 20) 33 [].

(** ** [marchingCubesPolygons] on the store

    The same function with the Python objects made explicit: the lists are
    objects of a heap, named by their address; an argument or a variable
    holds an address; [append] and the slice assignment change the object
    in place.  The heap of a call is everything that exists when the
    function is called: the list of the caller, the results of earlier
    calls, anything else. *)
Module Store.

Inductive object : Type :=
| Floats (l : list float)
| Corners (l : list corner)
| Edges (l : list edge)
| Points (l : list point).

(** Objects are never freed; the address of an object is its position. *)
Definition heap : Type := list object.

(** A new list object. *)
Definition new (o : object) (h : heap) : nat * heap := (length h, h ++ [o]).

Definition load (a : nat) (h : heap) : option object := nth_error h a.

(** The list at an address, read as a list of numbers, corners, edges or
    points; an object of another kind raises. *)
Definition floats_at (a : nat) (h : heap) : option (list float) :=
  o <- load a h ;; match o with Floats l => Some l | _ => None end.

Definition corners_at (a : nat) (h : heap) : option (list corner) :=
  o <- load a h ;; match o with Corners l => Some l | _ => None end.

Definition edges_at (a : nat) (h : heap) : option (list edge) :=
  o <- load a h ;; match o with Edges l => Some l | _ => None end.

Definition points_at (a : nat) (h : heap) : option (list point) :=
  o <- load a h ;; match o with Points l => Some l | _ => None end.

(** [activeEdges.append(edge)] *)
Definition append_edge (a : nat) (e : edge) (h : heap) : option heap :=
  l <- edges_at a h ;; set_nth h a (Edges (l ++ [e])).

(** [polygonVertices.append(midpoint)] *)
Definition append_point (a : nat) (p : point) (h : heap) : option heap :=
  l <- points_at a h ;; set_nth h a (Points (l ++ [p])).

(** [tuple((a+b)/2 for a,b in zip(A, B))] *)
Definition zip_midpoint (A B : corner) : point :=
  let '(a0, a1, a2) := A in
  let '(b0, b1, b2) := B in
  (int_truediv (a0 + b0) 2, int_truediv (a1 + b1) 2, int_truediv (a2 + b2) 2).

(** The body of the first loop. *)
Definition activeStep (values activeEdges : nat) (threshold : float)
    (h : heap) (e : edge) : option heap :=
  vals <- floats_at values h ;;
  v0 <- nth_error vals (fst e) ;;
  vals' <- floats_at values h ;;
  v1 <- nth_error vals' (snd e) ;;
  if bool_ne (gt v0 threshold) (gt v1 threshold)
  then append_edge activeEdges e h
  else Some h.

(** The body of the second loop. *)
Definition midpointStep (VERTICES_ polygonVertices : nat)
    (h : heap) (e : edge) : option heap :=
  verts <- corners_at VERTICES_ h ;;
  A <- nth_error verts (fst e) ;;
  B <- nth_error verts (snd e) ;;
  append_point polygonVertices (zip_midpoint A B) h.

(** The body of the third loop: the slice assignment changes the list
    object in place.  The slice and its sorted copy are temporaries that
    nothing names after the statement; they are not kept in the heap. *)
Definition sortStep (polygonVertices : nat) (h : heap) (index : nat)
  : option heap :=
  pv <- points_at polygonVertices h ;;
  a <- nth_error pv index ;;
  set_nth h polygonVertices
    (Points (firstn (S index) pv ++ sorted (sortKey a) (skipn (S index) pv))).

(** [marchingCubesPolygons(values, threshold)]: [values] is the address
    of the caller's list; the result is the address of the returned list
    and the heap after the call. *)
Definition marchingCubesPolygons (values : nat) (threshold : float)
    (h : heap) : option (nat * heap) :=
  let '(VERTICES_, h) := new (Corners VERTICES) h in
  let '(EDGES_, h) := new (Edges EDGES) h in
  let '(activeEdges, h) := new (Edges []) h in
  let '(polygonVertices, h) := new (Points []) h in
  edges <- edges_at EDGES_ h ;;
  h <- foldM (activeStep values activeEdges threshold) edges h ;;
  active <- edges_at activeEdges h ;;
  h <- foldM (midpointStep VERTICES_ polygonVertices) active h ;;
  pv <- points_at polygonVertices h ;;
  h <- foldM (sortStep polygonVertices) (range (length pv)) h ;;
  Some (polygonVertices, h).

(** The heap of a call in progress: the heap at the call, then the four
    lists of the function. *)
Definition during (h0 : heap) (active : list edge) (pv : list point) : heap :=
  h0 ++ [Corners VERTICES; Edges EDGES; Edges active; Points pv].

(** Two heaps for the examples: one that holds the example cube only, one
    that holds other lists before it. *)
Definition example_heap : heap := [Floats example_values].

Definition example_heap_busy : heap :=
  [Points [(0.5, 0.5, 0.5)%float]; Floats [1; 2; 3]%float;
   Floats example_values; Edges [(0, 7)]].

End Store.

(** * Lemmas on the model *)

Lemma bind_Some {A B : Type} (m : option A) (f : A -> option B) (b : B) :
  bind m f = Some b <-> exists a, m = Some a /\ f a = Some b.
Proof.
  destruct m as [a|]; simpl; split.
  - intros H; exists a; auto.
  - intros (a' & Ha & Hf); inversion Ha; subst; exact Hf.
  - discriminate.
  - intros (a' & Ha & _); discriminate.
Qed.

Lemma EDGES_in_range :
  Forall (fun e : edge => fst e < 8 /\ snd e < 8) EDGES.
Proof. unfold EDGES; repeat constructor. Qed.

Lemma above_nth (values : list float) (threshold v : float) (i : nat) :
  nth_error values i = Some v -> above values threshold i = gt v threshold.
Proof. unfold above; intros ->; reflexivity. Qed.

(** The first loop is a filter of the edge table. *)
Lemma activeEdgesOf_filter (values : list float) (threshold : float)
    (edges : list edge) :
  Forall (fun e : edge => fst e < length values /\ snd e < length values) edges ->
  activeEdgesOf values threshold edges
  = Some (filter (straddles values threshold) edges).
Proof.
  induction 1 as [|e rest [H0 H1] _ IH]; simpl; [reflexivity|].
  apply nth_error_Some in H0, H1.
  unfold straddles at 1, above.
  destruct (nth_error values (fst e)) as [v0|]; [|congruence].
  destruct (nth_error values (snd e)) as [v1|]; [|congruence].
  simpl. rewrite IH. simpl.
  destruct (bool_ne (gt v0 threshold) (gt v1 threshold)); reflexivity.
Qed.

Lemma activeEdgesOf_EDGES (values : list float) (threshold : float) :
  length values = 8 ->
  activeEdgesOf values threshold EDGES
  = Some (filter (straddles values threshold) EDGES).
Proof.
  intros Hlen. apply activeEdgesOf_filter. rewrite Hlen. exact EDGES_in_range.
Qed.

(** Sorting permutes. *)
Lemma insert_perm (key : point -> float) (x : point) (l : list point) :
  Permutation (x :: l) (insert key x l).
Proof.
  induction l as [|y l IH]; simpl; [reflexivity|].
  destruct (PrimFloat.ltb (key y) (key x)); [|reflexivity].
  rewrite perm_swap. constructor. exact IH.
Qed.

Lemma sorted_perm (key : point -> float) (l : list point) :
  Permutation l (sorted key l).
Proof.
  induction l as [|x l IH]; simpl; [constructor|].
  rewrite <- insert_perm. constructor. exact IH.
Qed.

Lemma sorted_length (key : point -> float) (l : list point) :
  length (sorted key l) = length l.
Proof. symmetry. apply Permutation_length, sorted_perm. Qed.

Lemma chain_perm (n : nat) (l : list point) : Permutation l (chain n l).
Proof.
  revert l; induction n as [|n IH]; intros [|a rest]; simpl; try reflexivity.
  constructor. rewrite <- IH. apply sorted_perm.
Qed.

Lemma chain_length (n : nat) (l : list point) : length (chain n l) = length l.
Proof. symmetry. apply Permutation_length, chain_perm. Qed.

(** One turn of the loop at the boundary between the part already fixed and
    the rest. *)
Lemma sortStep_app (done : list point) (a : point) (rest : list point) :
  sortStep (done ++ a :: rest) (length done)
  = Some ((done ++ [a]) ++ sorted (sortKey a) rest).
Proof.
  unfold sortStep.
  rewrite nth_error_app2, Nat.sub_diag by lia.
  rewrite firstn_app, skipn_app.
  replace (S (length done) - length done) with 1 by lia.
  rewrite firstn_all2, skipn_all2 by lia. reflexivity.
Qed.

(** The third loop computes the greedy chain. *)
Lemma sortLoop_chain (n : nat) : forall (done l : list point),
  length l = n ->
  foldM sortStep (seq (length done) n) (done ++ l)
  = Some (done ++ chain n l).
Proof.
  induction n as [|n IH]; intros done l Hlen.
  - destruct l; [reflexivity|discriminate].
  - destruct l as [|a rest]; [discriminate|].
    simpl. rewrite sortStep_app. simpl.
    replace (S (length done)) with (length (done ++ [a]))
      by (rewrite length_app; simpl; lia).
    rewrite IH by (rewrite sorted_length; simpl in Hlen; lia).
    rewrite <- app_assoc. reflexivity.
Qed.

Lemma sortLoop_greedy (l : list point) :
  foldM sortStep (range (length l)) l = Some (greedy_chain l).
Proof. exact (@sortLoop_chain (length l) [] l eq_refl). Qed.

(** On 8 values the function returns, and returns the greedy chain of the
    midpoints of the straddling edges in table order. *)
Lemma marchingCubesPolygons_eq (values : list float) (threshold : float) :
  length values = 8 ->
  marchingCubesPolygons values threshold
  = Some (greedy_chain
            (map midpoint (filter (straddles values threshold) EDGES))).
Proof.
  intros Hlen. unfold marchingCubesPolygons.
  rewrite activeEdgesOf_EDGES by assumption. simpl.
  apply sortLoop_greedy.
Qed.

(** ** Facts on binary64 comparison *)

(** [x < y] excludes [y < x]. *)
Lemma ltb_asym (x y : float) :
  PrimFloat.ltb x y = true -> PrimFloat.ltb y x = false.
Proof.
  rewrite !ltb_spec. unfold SFltb.
  destruct (Prim2SF x) as [sx|sx| |sx mx ex], (Prim2SF y) as [sy|sy| |sy my ey];
    simpl; try discriminate; try reflexivity;
    try (destruct sx; try discriminate; try reflexivity; fail);
    try (destruct sy; try discriminate; try reflexivity; fail);
    try (destruct sx, sy; try discriminate; try reflexivity; fail).
  destruct sx, sy; try discriminate; try reflexivity;
    rewrite (Z.compare_antisym ex ey);
    destruct (ex ?= ey)%Z; simpl; try discriminate; try reflexivity;
    pose proof (Pos.compare_cont_antisym mx my Eq) as Hm; simpl in Hm;
    rewrite <- Hm;
    destruct (Pos.compare_cont Eq mx my); simpl;
    try discriminate; reflexivity.
Qed.

(** ** The tables *)

Lemma midpoint_table : map midpoint EDGES = MIDPOINTS.
Proof. vm_compute. reflexivity. Qed.

Lemma NoDup_map_inj {A B : Type} (f : A -> B) (l : list A) (x y : A) :
  NoDup (map f l) -> In x l -> In y l -> f x = f y -> x = y.
Proof.
  induction l as [|a l IH]; simpl; [tauto|].
  intros Hnd Hx Hy Hf. inversion Hnd as [|? ? Hnotin Hnd']; subst.
  destruct Hx as [->|Hx], Hy as [->|Hy]; auto.
  - exfalso. apply Hnotin. rewrite Hf. apply in_map, Hy.
  - exfalso. apply Hnotin. rewrite <- Hf. apply in_map, Hx.
Qed.

Lemma MIDPOINTS_NoDup : NoDup MIDPOINTS.
Proof.
  apply (NoDup_map_inv point_image).
  vm_compute.
  repeat (constructor; [simpl; intuition discriminate|]).
  constructor.
Qed.

Lemma midpoints_NoDup : NoDup (map midpoint EDGES).
Proof. rewrite midpoint_table. exact MIDPOINTS_NoDup. Qed.

Lemma MIDPOINTS_edge_centre : Forall edge_centre MIDPOINTS.
Proof.
  unfold MIDPOINTS, edge_centre, zero_or_one.
  repeat (constructor; [tauto|]). constructor.
Qed.

Lemma MIDPOINTS_halves : Forall (fun p => halves p = 1) MIDPOINTS.
Proof. repeat (constructor; [vm_compute; reflexivity|]). constructor. Qed.

Lemma MIDPOINTS_in_unit_cube : Forall in_unit_cube MIDPOINTS.
Proof. repeat (constructor; [vm_compute; reflexivity|]). constructor. Qed.

Lemma midpoint_corner_midpoint :
  Forall (fun e => midpoint e = corner_midpoint (vertex (fst e)) (vertex (snd e)))
         EDGES.
Proof. repeat (constructor; [vm_compute; reflexivity|]). constructor. Qed.

(** ** The returned polygon and the straddling edges *)

Lemma polygon_perm (values : list float) (threshold : float) :
  Permutation (map midpoint (filter (straddles values threshold) EDGES))
    (greedy_chain (map midpoint (filter (straddles values threshold) EDGES))).
Proof. apply chain_perm. Qed.

Lemma In_polygon (values : list float) (threshold : float) (p : point) :
  In p (greedy_chain (map midpoint (filter (straddles values threshold) EDGES)))
  <-> exists e, In e EDGES /\ straddles values threshold e = true /\ p = midpoint e.
Proof.
  split.
  - intros Hin. apply (Permutation_in _ (Permutation_sym (polygon_perm _ _))) in Hin.
    apply in_map_iff in Hin. destruct Hin as (e & <- & He).
    apply filter_In in He. exists e; tauto.
  - intros (e & He & Hs & ->).
    apply (Permutation_in _ (polygon_perm _ _)).
    apply in_map, filter_In; auto.
Qed.

Lemma In_polygon_edge (values : list float) (threshold : float) (e : edge) :
  In e EDGES ->
  In (midpoint e)
     (greedy_chain (map midpoint (filter (straddles values threshold) EDGES)))
  <-> straddles values threshold e = true.
Proof.
  intros He. rewrite In_polygon. split.
  - intros (e' & He' & Hs & Heq).
    rewrite (NoDup_map_inj midpoint EDGES e e' midpoints_NoDup He He' Heq).
    exact Hs.
  - intros Hs. exists e; auto.
Qed.

Lemma polygon_NoDup (values : list float) (threshold : float) :
  NoDup (greedy_chain (map midpoint (filter (straddles values threshold) EDGES))).
Proof.
  apply (Permutation_NoDup (polygon_perm values threshold)).
  assert (H : forall l : list edge, NoDup (map midpoint l) ->
            NoDup (map midpoint (filter (straddles values threshold) l))).
  { induction l as [|e l IH]; simpl; intros Hnd; [constructor|].
    inversion Hnd as [|? ? Hnotin Hnd']; subst.
    destruct (straddles values threshold e); simpl; auto.
    constructor; auto.
    intros Hin. apply Hnotin.
    apply in_map_iff in Hin. destruct Hin as (e' & Heq & He').
    apply filter_In in He'. rewrite <- Heq. apply in_map; tauto. }
  apply H, midpoints_NoDup.
Qed.

Lemma no_straddle_empty (values : list float) (threshold : float) :
  (forall e, In e EDGES -> straddles values threshold e = false) ->
  greedy_chain (map midpoint (filter (straddles values threshold) EDGES)) = [].
Proof.
  intros H.
  assert (Hf : filter (straddles values threshold) EDGES = []).
  { generalize dependent EDGES. induction l as [|e l IH]; simpl; intros H; auto.
    rewrite (H e) by auto. apply IH. intros; apply H; auto. }
  rewrite Hf. reflexivity.
Qed.

Lemma above_all (values : list float) (threshold : float) (b : bool) :
  (forall v, In v values -> gt v threshold = b) ->
  forall i, i < length values -> above values threshold i = b.
Proof.
  intros H i Hi. unfold above.
  destruct (nth_error values i) as [v|] eqn:Hv.
  - apply H. eapply nth_error_In, Hv.
  - apply nth_error_None in Hv. lia.
Qed.

Lemma one_side_empty (values : list float) (threshold : float) (b : bool) :
  length values = 8 ->
  (forall v, In v values -> gt v threshold = b) ->
  greedy_chain (map midpoint (filter (straddles values threshold) EDGES)) = [].
Proof.
  intros Hlen H. apply no_straddle_empty. intros e He.
  pose proof EDGES_in_range as Hr. rewrite Forall_forall in Hr.
  destruct (Hr e He) as [H0 H1]. unfold straddles.
  rewrite !(above_all values threshold b H) by lia.
  destruct b; reflexivity.
Qed.

Lemma bool_ne_true (p q : bool) : bool_ne p q = true <-> p <> q.
Proof. destruct p, q; unfold bool_ne; simpl; split; intros H; try discriminate; try reflexivity; try (exfalso; apply H; reflexivity). Qed.

Lemma gt_irrefl (x : float) : gt x x = false.
Proof.
  unfold gt. destruct (PrimFloat.ltb x x) eqn:H; [|reflexivity].
  rewrite (ltb_asym _ _ H) in H. discriminate.
Qed.

(** ** The polygon as a function of the comparison results *)

Lemma above_bits (values : list float) (threshold : float) (i : nat) :
  above values threshold i = nth i (map (fun v => gt v threshold) values) false.
Proof.
  unfold above. revert i.
  induction values as [|v values IH]; intros [|i]; simpl; auto.
Qed.

Lemma greedy_chain_bits (values : list float) (threshold : float) :
  greedy_chain (map midpoint (filter (straddles values threshold) EDGES))
  = polygon_of_bits (map (fun v => gt v threshold) values).
Proof.
  unfold polygon_of_bits. do 2 f_equal.
  apply filter_ext. intros e. unfold straddles, bit_straddles.
  rewrite !above_bits. reflexivity.
Qed.

Lemma all_bits_complete (bits : list bool) : In bits (all_bits (length bits)).
Proof.
  induction bits as [|b bits IH]; simpl; [auto|].
  apply in_or_app. destruct b; [left|right]; apply in_map, IH.
Qed.

(** A property checked on the 256 comparison patterns holds of all of them. *)
Lemma for_all_bits (check : list bool -> bool) :
  forallb check (all_bits 8) = true ->
  forall bits, length bits = 8 -> check bits = true.
Proof.
  intros Hall bits Hlen. rewrite forallb_forall in Hall. apply Hall.
  rewrite <- Hlen. apply all_bits_complete.
Qed.

Lemma count_true_map (values : list float) (threshold : float) :
  length (filter (fun b : bool => b) (map (fun v => gt v threshold) values))
  = above_count values threshold.
Proof.
  unfold above_count. induction values as [|v values IH]; simpl; [reflexivity|].
  destruct (gt v threshold); simpl; rewrite IH; reflexivity.
Qed.

Lemma parity_of_bits (bits : list bool) :
  length bits = 8 ->
  Nat.even (length (polygon_of_bits bits))
  = Nat.even (length (filter (fun b : bool => b) bits)).
Proof.
  intros Hlen. apply eqb_prop.
  apply (for_all_bits
           (fun bits => Bool.eqb (Nat.even (length (polygon_of_bits bits)))
                          (Nat.even (length (filter (fun b : bool => b) bits)))));
    [vm_compute; reflexivity | assumption].
Qed.


Lemma polygon_length_le (values : list float) (threshold : float) :
  length (greedy_chain (map midpoint (filter (straddles values threshold) EDGES)))
  <= 12.
Proof.
  unfold greedy_chain. rewrite chain_length, length_map.
  apply (filter_length_le (straddles values threshold) EDGES).
Qed.

Lemma greedy_chain_cons (a : point) (rest : list point) :
  greedy_chain (a :: rest) = a :: greedy_chain (sorted (sortKey a) rest).
Proof. unfold greedy_chain. simpl. rewrite sorted_length. reflexivity. Qed.


(** * The claims on [marchingCubesPolygons] *)

(** C1: on 8 values the polygon holds the vertex of edge (a,b) of the table
    if and only if [(values[a] > threshold) != (values[b] > threshold)]; a
    value equal to the threshold is not greater than it, and a cube whose 8
    values all equal the threshold gives the empty polygon. *)
Theorem C1_vertex_iff_edge_straddles (values : list float) (threshold : float) :
  length values = 8 ->
  exists polygon,
    marchingCubesPolygons values threshold = Some polygon /\
    (forall a b va vb,
        In (a, b) EDGES ->
        nth_error values a = Some va -> nth_error values b = Some vb ->
        (In (midpoint (a, b)) polygon
         <-> gt va threshold <> gt vb threshold)) /\
    gt threshold threshold = false /\
    ((forall v, In v values -> v = threshold) -> polygon = []).
Proof.
  intros Hlen. eexists. split; [apply marchingCubesPolygons_eq, Hlen|].
  split; [|split].
  - intros a b va vb He Ha Hb.
    rewrite (In_polygon_edge values threshold (a, b) He).
    unfold straddles. simpl.
    rewrite (above_nth values threshold va a Ha),
            (above_nth values threshold vb b Hb).
    apply bool_ne_true.
  - apply gt_irrefl.
  - intros Hall. apply (one_side_empty values threshold false Hlen).
    intros v Hv. rewrite (Hall v Hv). apply gt_irrefl.
Qed.

Lemma C1_witness :
  length example_values = 8 /\
  exists polygon,
    marchingCubesPolygons example_values 0.5 = Some polygon /\
    (forall a b va vb,
        In (a, b) EDGES ->
        nth_error example_values a = Some va ->
        nth_error example_values b = Some vb ->
        (In (midpoint (a, b)) polygon <-> gt va 0.5 <> gt vb 0.5)) /\
    gt 0.5 0.5 = false /\
    ((forall v, In v example_values -> v = 0.5%float) -> polygon = []).
Proof.
  split; [reflexivity|].
  apply (C1_vertex_iff_edge_straddles example_values 0.5). reflexivity.
Defined.

(** C2: on 8 values the number of returned vertices is the number of the 12
    edges whose endpoints straddle the threshold, and the polygon is empty
    when every value is strictly above, or every value strictly below, the
    threshold. *)
Theorem C2_vertex_count (values : list float) (threshold : float) :
  length values = 8 ->
  exists polygon,
    marchingCubesPolygons values threshold = Some polygon /\
    length polygon = straddle_count values threshold /\
    ((forall v, In v values -> PrimFloat.ltb threshold v = true) \/
     (forall v, In v values -> PrimFloat.ltb v threshold = true) ->
     polygon = []).
Proof.
  intros Hlen. eexists. split; [apply marchingCubesPolygons_eq, Hlen|].
  split.
  - unfold greedy_chain, straddle_count.
    rewrite chain_length, length_map. reflexivity.
  - intros [Habove|Hbelow].
    + apply (one_side_empty values threshold true Hlen). exact Habove.
    + apply (one_side_empty values threshold false Hlen).
      intros v Hv. apply ltb_asym, Hbelow, Hv.
Qed.

Lemma C2_witness :
  length example_values = 8 /\
  exists polygon,
    marchingCubesPolygons example_values 0.5 = Some polygon /\
    length polygon = straddle_count example_values 0.5 /\
    ((forall v, In v example_values -> PrimFloat.ltb 0.5 v = true) \/
     (forall v, In v example_values -> PrimFloat.ltb v 0.5 = true) ->
     polygon = []).
Proof.
  split; [reflexivity|].
  apply (C2_vertex_count example_values 0.5). reflexivity.
Defined.

(** C3: on 8 values every returned vertex is the arithmetic midpoint of the
    two corner positions of a straddling edge of the table, whatever the
    values are; on the example cube [0.1, 0.9, 0.9, 0.1, 0.1, 0.9, 0.9, 0.1]
    with threshold 0.5 the polygon is made of the midpoints of the edges
    (0,1), (2,3), (6,7) and (4,5), which join the low corners 0, 3, 7, 4 to
    the high corners 1, 2, 6, 5. *)
Theorem C3_vertices_are_midpoints (values : list float) (threshold : float) :
  length values = 8 ->
  exists polygon,
    marchingCubesPolygons values threshold = Some polygon /\
    (forall p, In p polygon ->
       exists a b,
         In (a, b) EDGES /\ straddles values threshold (a, b) = true /\
         p = corner_midpoint (vertex a) (vertex b)) /\
    marchingCubesPolygons example_values 0.5
    = Some [ corner_midpoint (vertex 0) (vertex 1);
             corner_midpoint (vertex 2) (vertex 3);
             corner_midpoint (vertex 6) (vertex 7);
             corner_midpoint (vertex 4) (vertex 5) ].
Proof.
  intros Hlen. eexists. split; [apply marchingCubesPolygons_eq, Hlen|].
  split; [|vm_compute; reflexivity].
  intros p Hp. apply In_polygon in Hp. destruct Hp as ([a b] & He & Hs & ->).
  exists a, b. split; [exact He|]. split; [exact Hs|].
  pose proof midpoint_corner_midpoint as Hm. rewrite Forall_forall in Hm.
  exact (Hm (a, b) He).
Qed.

Lemma C3_witness :
  length [1; 0; 0; 0; 0; 0; 0; 0]%float = 8 /\
  exists polygon,
    marchingCubesPolygons [1; 0; 0; 0; 0; 0; 0; 0]%float 0.5 = Some polygon /\
    (forall p, In p polygon ->
       exists a b,
         In (a, b) EDGES /\
         straddles [1; 0; 0; 0; 0; 0; 0; 0]%float 0.5 (a, b) = true /\
         p = corner_midpoint (vertex a) (vertex b)) /\
    marchingCubesPolygons example_values 0.5
    = Some [ corner_midpoint (vertex 0) (vertex 1);
             corner_midpoint (vertex 2) (vertex 3);
             corner_midpoint (vertex 6) (vertex 7);
             corner_midpoint (vertex 4) (vertex 5) ].
Proof.
  split; [reflexivity|].
  apply (C3_vertices_are_midpoints [1; 0; 0; 0; 0; 0; 0; 0]%float 0.5).
  reflexivity.
Defined.



(** C8, as the specification states it, fails: with one corner above the
    threshold the three edges at that corner straddle, and the polygon has
    3 vertices, an odd number. *)
Lemma C8_counterexample :
  exists polygon,
    marchingCubesPolygons [1; 0; 0; 0; 0; 0; 0; 0]%float 0.5 = Some polygon /\
    length polygon = 3 /\
    ~ (length polygon = 0 \/ Nat.Even (length polygon)).
Proof.
  eexists. split; [vm_compute; reflexivity|]. split; [reflexivity|].
  simpl. intros [H|[m H]]; lia.
Qed.

(** C8, amended: on 8 values the polygon has at most 12 vertices, and their
    number is even exactly when the number of corners strictly greater than
    the threshold is even. *)
Theorem C8_vertex_count_parity (values : list float) (threshold : float) :
  length values = 8 ->
  exists polygon,
    marchingCubesPolygons values threshold = Some polygon /\
    length polygon <= 12 /\
    Nat.even (length polygon) = Nat.even (above_count values threshold).
Proof.
  intros Hlen. eexists. split; [apply marchingCubesPolygons_eq, Hlen|].
  split; [apply polygon_length_le|].
  rewrite greedy_chain_bits, <- count_true_map.
  apply parity_of_bits. rewrite length_map. exact Hlen.
Qed.

Lemma C8_witness :
  length example_values = 8 /\
  exists polygon,
    marchingCubesPolygons example_values 0.5 = Some polygon /\
    length polygon <= 12 /\
    Nat.even (length polygon) = Nat.even (above_count example_values 0.5).
Proof.
  split; [reflexivity|].
  apply (C8_vertex_count_parity example_values 0.5). reflexivity.
Defined.

(** C10: on 8 values every returned vertex has exactly one coordinate equal
    to 0.5 and its two other coordinates equal to 0 or 1, so it lies in the
    unit cube, and no point occurs twice in the polygon. *)
Theorem C10_vertices_are_edge_centres (values : list float) (threshold : float) :
  length values = 8 ->
  exists polygon,
    marchingCubesPolygons values threshold = Some polygon /\
    (forall p, In p polygon ->
       edge_centre p /\ halves p = 1 /\ in_unit_cube p) /\
    NoDup polygon.
Proof.
  intros Hlen. eexists. split; [apply marchingCubesPolygons_eq, Hlen|].
  split; [|apply polygon_NoDup].
  intros p Hp. apply In_polygon in Hp. destruct Hp as (e & He & _ & ->).
  assert (Hin : In (midpoint e) MIDPOINTS)
    by (rewrite <- midpoint_table; apply in_map, He).
  pose proof MIDPOINTS_edge_centre as H1.
  pose proof MIDPOINTS_halves as H2.
  pose proof MIDPOINTS_in_unit_cube as H3.
  rewrite Forall_forall in H1, H2, H3. auto.
Qed.

Lemma C10_witness :
  length example_values = 8 /\
  exists polygon,
    marchingCubesPolygons example_values 0.5 = Some polygon /\
    (forall p, In p polygon ->
       edge_centre p /\ halves p = 1 /\ in_unit_cube p) /\
    NoDup polygon.
Proof.
  split; [reflexivity|].
  apply (C10_vertices_are_edge_centres example_values 0.5). reflexivity.
Defined.

(** * The grids *)

(** ** Assignment to an index of a list *)

Lemma set_nth_Some {A : Type} (l : list A) (i : nat) (v : A) :
  i < length l -> exists l', set_nth l i v = Some l'.
Proof.
  revert i. induction l as [|a l IH]; intros [|i] Hi; simpl in *; try lia.
  - eexists; reflexivity.
  - destruct (IH i) as [l' ->]; [lia|]. eexists; reflexivity.
Qed.

Lemma set_nth_spec {A : Type} (l : list A) (i : nat) (v : A) (l' : list A) :
  set_nth l i v = Some l' ->
  length l' = length l /\
  nth_error l' i = Some v /\
  forall j, j <> i -> nth_error l' j = nth_error l j.
Proof.
  revert i l'. induction l as [|a l IH]; intros [|i] l' H; simpl in H;
    try discriminate.
  - injection H as <-. repeat split. intros [|j] Hj; [lia|reflexivity].
  - destruct (set_nth l i v) as [l''|] eqn:E; [|discriminate].
    injection H as <-. destruct (IH i l'' E) as (Hl & Hs & Ho).
    simpl. repeat split; [lia|exact Hs|].
    intros [|j] Hj; [reflexivity|]. simpl. apply Ho. lia.
Qed.

Lemma set_nth_Forall {A : Type} (P : A -> Prop) (l : list A) (i : nat) (v : A)
    (l' : list A) :
  set_nth l i v = Some l' -> Forall P l -> P v -> Forall P l'.
Proof.
  revert i l'. induction l as [|a l IH]; intros [|i] l' H Hall Hv; simpl in H;
    try discriminate; inversion Hall; subst.
  - injection H as <-. constructor; assumption.
  - destruct (set_nth l i v) as [l''|] eqn:E; [|discriminate].
    injection H as <-. constructor; [assumption|]. eapply IH; eassumption.
Qed.

(** ** Assignment to a cell of a grid *)

Lemma set3_None {A : Type} (g : grid A) (x y z : nat) (v : A) :
  get3 g x y z = None -> set3 g x y z v = None.
Proof.
  unfold get3, set3.
  destruct (nth_error g x) as [plane|]; simpl; [|reflexivity].
  destruct (nth_error plane y) as [row|]; simpl; [|reflexivity].
  intros H. apply nth_error_None in H.
  destruct (set_nth row z v) as [row'|] eqn:E; [|reflexivity].
  exfalso. apply set_nth_spec in E. destruct E as (Hlen & E & _).
  assert (z < length row') by (apply nth_error_Some; congruence). lia.
Qed.

Lemma set3_Some {A : Type} (g : grid A) (x y z : nat) (old v : A) :
  get3 g x y z = Some old -> exists g', set3 g x y z v = Some g'.
Proof.
  unfold get3, set3.
  destruct (nth_error g x) as [plane|] eqn:Ex; simpl; [|discriminate].
  destruct (nth_error plane y) as [row|] eqn:Ey; simpl; [|discriminate].
  intros Ez.
  destruct (set_nth_Some row z v) as [row' ->];
    [apply nth_error_Some; congruence|]. simpl.
  destruct (set_nth_Some plane y row') as [plane' ->];
    [apply nth_error_Some; congruence|]. simpl.
  apply set_nth_Some. apply nth_error_Some; congruence.
Qed.

Lemma set3_inv {A : Type} (g : grid A) (x y z : nat) (v : A) (g' : grid A) :
  set3 g x y z v = Some g' ->
  exists plane row row' plane',
    nth_error g x = Some plane /\ nth_error plane y = Some row /\
    set_nth row z v = Some row' /\ set_nth plane y row' = Some plane' /\
    set_nth g x plane' = Some g'.
Proof.
  unfold set3. intros H.
  destruct (nth_error g x) as [plane|] eqn:Ex; simpl in H; [|discriminate].
  destruct (nth_error plane y) as [row|] eqn:Ey; simpl in H; [|discriminate].
  destruct (set_nth row z v) as [row'|] eqn:Er; simpl in H; [|discriminate].
  destruct (set_nth plane y row') as [plane'|] eqn:Ep; simpl in H;
    [|discriminate].
  exists plane, row, row', plane'. repeat split; auto.
Qed.

Lemma set3_same {A : Type} (g : grid A) (x y z : nat) (v : A) (g' : grid A) :
  set3 g x y z v = Some g' -> get3 g' x y z = Some v.
Proof.
  intros H. apply set3_inv in H.
  destruct H as (plane & row & row' & plane' & _ & _ & Er & Ep & Eg).
  apply set_nth_spec in Er, Ep, Eg.
  destruct Er as (_ & Er & _), Ep as (_ & Ep & _), Eg as (_ & Eg & _).
  unfold get3. rewrite Eg. simpl. rewrite Ep. simpl. exact Er.
Qed.

Lemma set3_other {A : Type} (g : grid A) (x y z : nat) (v : A) (g' : grid A)
    (x' y' z' : nat) :
  set3 g x y z v = Some g' ->
  (x', (y', z')) <> (x, (y, z)) ->
  get3 g' x' y' z' = get3 g x' y' z'.
Proof.
  intros H Hne. apply set3_inv in H.
  destruct H as (plane & row & row' & plane' & Ex & Ey & Er & Ep & Eg).
  apply set_nth_spec in Er, Ep, Eg.
  destruct Er as (_ & Er & Er'), Ep as (_ & Ep & Ep'), Eg as (_ & Eg & Eg').
  unfold get3.
  destruct (Nat.eq_dec x' x) as [->|Hx]; [|rewrite Eg' by exact Hx; reflexivity].
  rewrite Eg, Ex. simpl.
  destruct (Nat.eq_dec y' y) as [->|Hy]; [|rewrite Ep' by exact Hy; reflexivity].
  rewrite Ep, Ey. simpl.
  apply Er'. intros ->. apply Hne. reflexivity.
Qed.

Lemma set3_cubic {A : Type} (n : nat) (g : grid A) (x y z : nat) (v : A)
    (g' : grid A) :
  set3 g x y z v = Some g' -> cubic n g -> cubic n g'.
Proof.
  intros H [Hlen Hall]. apply set3_inv in H.
  destruct H as (plane & row & row' & plane' & Ex & Ey & Er & Ep & Eg).
  pose proof (nth_error_In _ _ Ex) as Hin.
  rewrite Forall_forall in Hall. destruct (Hall plane Hin) as [Hpl Hrows].
  pose proof (nth_error_In _ _ Ey) as Hin'.
  rewrite Forall_forall in Hrows. pose proof (Hrows row Hin') as Hrl.
  split.
  - apply set_nth_spec in Eg. lia.
  - apply (set_nth_Forall _ g x plane' g' Eg).
    + apply Forall_forall. exact Hall.
    + split.
      * apply set_nth_spec in Ep. lia.
      * apply (set_nth_Forall _ plane y row' plane' Ep).
        -- apply Forall_forall. exact Hrows.
        -- apply set_nth_spec in Er. lia.
Qed.

Lemma cubic_get3 {A : Type} (n : nat) (g : grid A) (x y z : nat) :
  cubic n g -> x < n -> y < n -> z < n -> exists v, get3 g x y z = Some v.
Proof.
  intros [Hlen Hall] Hx Hy Hz. unfold get3.
  destruct (nth_error g x) as [plane|] eqn:Ex;
    [|apply nth_error_None in Ex; lia].
  rewrite Forall_forall in Hall.
  destruct (Hall plane (nth_error_In _ _ Ex)) as [Hpl Hrows]. simpl.
  destruct (nth_error plane y) as [row|] eqn:Ey;
    [|apply nth_error_None in Ey; lia].
  rewrite Forall_forall in Hrows.
  pose proof (Hrows row (nth_error_In _ _ Ey)) as Hrl. simpl.
  destruct (nth_error row z) as [v|] eqn:Ez;
    [|apply nth_error_None in Ez; lia].
  exists v. reflexivity.
Qed.

(** ** Loops *)

Lemma foldM_app {S I : Type} (body : S -> I -> option S) (l1 l2 : list I)
    (s : S) :
  foldM body (l1 ++ l2) s = (s' <- foldM body l1 s ;; foldM body l2 s').
Proof.
  revert s. induction l1 as [|i l1 IH]; intros s; simpl; [reflexivity|].
  destruct (body s i) as [s1|]; simpl; [apply IH|reflexivity].
Qed.

Lemma foldM_map {S I J : Type} (f : J -> I) (body : S -> I -> option S)
    (l : list J) (s : S) :
  foldM body (map f l) s = foldM (fun s j => body s (f j)) l s.
Proof.
  revert s. induction l as [|j l IH]; intros s; simpl; [reflexivity|].
  destruct (body s (f j)) as [s1|]; simpl; [apply IH|reflexivity].
Qed.

Lemma foldM_ext {S I : Type} (body body' : S -> I -> option S) (l : list I) :
  (forall s i, body s i = body' s i) ->
  forall s, foldM body l s = foldM body' l s.
Proof.
  intros Hext. induction l as [|i l IH]; intros s; simpl; [reflexivity|].
  rewrite Hext. destruct (body' s i) as [s1|]; simpl; [apply IH|reflexivity].
Qed.

(** Two nested loops run through the pairs of indices in order. *)
Lemma foldM_list_prod {S I J : Type} (body : S -> I * J -> option S)
    (li : list I) (lj : list J) (s : S) :
  foldM body (list_prod li lj) s
  = foldM (fun s i => foldM (fun s j => body s (i, j)) lj s) li s.
Proof.
  revert s. induction li as [|i li IH]; intros s; simpl; [reflexivity|].
  rewrite foldM_app, foldM_map.
  destruct (foldM (fun s j => body s (i, j)) lj s) as [s1|]; simpl;
    [apply IH|reflexivity].
Qed.

Lemma for3_list_prod {S : Type} (rx ry rz : list nat)
    (body : S -> nat -> nat -> nat -> option S) (s : S) :
  for3 rx ry rz body s
  = foldM (fun s i => body s (fst i) (fst (snd i)) (snd (snd i)))
          (list_prod rx (list_prod ry rz)) s.
Proof.
  unfold for3. rewrite foldM_list_prod.
  apply foldM_ext. intros s' x. rewrite foldM_list_prod. reflexivity.
Qed.

Lemma NoDup_list_prod {I J : Type} (li : list I) (lj : list J) :
  NoDup li -> NoDup lj -> NoDup (list_prod li lj).
Proof.
  intros Hi Hj. induction Hi as [|i li Hnotin Hi IH]; simpl; [constructor|].
  apply NoDup_app.
  - clear -Hj. induction Hj as [|j lj Hnotin Hj IH]; simpl; constructor; auto.
    intros Hin. apply in_map_iff in Hin. destruct Hin as (j' & Heq & Hin).
    injection Heq as ->. contradiction.
  - exact IH.
  - intros [i' j'] Hin Hin'. apply in_map_iff in Hin.
    destruct Hin as (j'' & Heq & _). injection Heq as <- <-.
    apply in_prod_iff in Hin'. tauto.
Qed.

(** A loop of assignments to pairwise distinct cells: every cell of the loop
    gets the value computed from its content before the loop, the other
    cells and the dimensions are kept. *)
Lemma foldM_cell_update {A : Type} (F : nat -> nat -> nat -> A -> option A)
    (idxs : list (nat * (nat * nat))) :
  NoDup idxs -> forall g : grid A,
  (forall x y z, In (x, (y, z)) idxs ->
     exists old v, get3 g x y z = Some old /\ F x y z old = Some v) ->
  exists g',
    foldM (cell_update F) idxs g = Some g' /\
    (forall x y z, In (x, (y, z)) idxs ->
       exists old, get3 g x y z = Some old /\ get3 g' x y z = F x y z old) /\
    (forall x y z, ~ In (x, (y, z)) idxs -> get3 g' x y z = get3 g x y z) /\
    (forall n, cubic n g -> cubic n g').
Proof.
  induction 1 as [|[x0 [y0 z0]] idxs Hnotin Hnd IH]; intros g Hpre.
  - exists g. simpl. split; [reflexivity|]. split; [intros; contradiction|].
    split; auto.
  - destruct (Hpre x0 y0 z0 (or_introl eq_refl)) as (old0 & v0 & Hold0 & Hv0).
    destruct (set3_Some g x0 y0 z0 old0 v0 Hold0) as [g1 Hset].
    assert (Hother : forall x y z, (x, (y, z)) <> (x0, (y0, z0)) ->
                       get3 g1 x y z = get3 g x y z)
      by (intros; eapply set3_other; eassumption).
    destruct (IH g1) as (g' & Hrun & Hin & Hout & Hcub).
    { intros x y z Hi. rewrite Hother by congruence.
      apply Hpre. right. exact Hi. }
    exists g'. split; [|split; [|split]].
    + simpl. rewrite Hold0. simpl. rewrite Hv0. simpl. rewrite Hset. simpl.
      exact Hrun.
    + intros x y z [Heq|Hi].
      * injection Heq as <- <- <-. exists old0. split; [exact Hold0|].
        rewrite (Hout _ _ _ Hnotin), Hv0. eapply set3_same, Hset.
      * destruct (Hin x y z Hi) as (old & Hold & Hnew).
        rewrite Hother in Hold by congruence. exists old. auto.
    + intros x y z Hni. rewrite Hout by (intros Hi; apply Hni; right; exact Hi).
      apply Hother. intros Heq. apply Hni. left. congruence.
    + intros n Hc. apply Hcub. eapply set3_cubic; eassumption.
Qed.

(** ** [findPolygons] *)

Lemma In_range3 (m x y z : nat) :
  In (x, (y, z)) (list_prod (range m) (list_prod (range m) (range m)))
  <-> x < m /\ y < m /\ z < m.
Proof.
  unfold range. rewrite !in_prod_iff, !in_seq. lia.
Qed.

Lemma NoDup_range3 (m : nat) :
  NoDup (list_prod (range m) (list_prod (range m) (range m))).
Proof. unfold range. repeat apply NoDup_list_prod; apply seq_NoDup. Qed.

Lemma findPolygonsCell_update (w : grid float) (threshold : float)
    (polys : grid (list point)) (x y z : nat) :
  findPolygonsCell w threshold polys x y z
  = cell_update (fun x y z _ => cubePolygon w threshold x y z) polys
      (x, (y, z)).
Proof.
  unfold findPolygonsCell, cell_update, cubePolygon.
  destruct (get3 polys x y z) as [old|] eqn:Hold; simpl.
  - destruct (cubeValues w x y z) as [values|]; reflexivity.
  - destruct (cubeValues w x y z) as [values|]; simpl; [|reflexivity].
    destruct (marchingCubesPolygons values threshold) as [polygon|]; simpl;
      [|reflexivity].
    apply set3_None, Hold.
Qed.

(** In a world of side [n] the cube at (x,y,z), x,y,z <= n-2, has its 8
    samples, and they give a polygon. *)
Lemma cubeValues_Some (n : nat) (w : grid float) (x y z : nat) :
  cubic n w -> x + 1 < n -> y + 1 < n -> z + 1 < n ->
  exists v0 v1 v2 v3 v4 v5 v6 v7,
    get3 w x y z = Some v0 /\
    get3 w (x+1) y z = Some v1 /\
    get3 w (x+1) (y+1) z = Some v2 /\
    get3 w x (y+1) z = Some v3 /\
    get3 w x y (z+1) = Some v4 /\
    get3 w (x+1) y (z+1) = Some v5 /\
    get3 w (x+1) (y+1) (z+1) = Some v6 /\
    get3 w x (y+1) (z+1) = Some v7 /\
    cubeValues w x y z = Some [v0; v1; v2; v3; v4; v5; v6; v7].
Proof.
  intros Hc Hx Hy Hz.
  destruct (cubic_get3 n w x y z Hc) as [v0 H0]; try lia.
  destruct (cubic_get3 n w (x+1) y z Hc) as [v1 H1]; try lia.
  destruct (cubic_get3 n w (x+1) (y+1) z Hc) as [v2 H2]; try lia.
  destruct (cubic_get3 n w x (y+1) z Hc) as [v3 H3]; try lia.
  destruct (cubic_get3 n w x y (z+1) Hc) as [v4 H4]; try lia.
  destruct (cubic_get3 n w (x+1) y (z+1) Hc) as [v5 H5]; try lia.
  destruct (cubic_get3 n w (x+1) (y+1) (z+1) Hc) as [v6 H6]; try lia.
  destruct (cubic_get3 n w x (y+1) (z+1) Hc) as [v7 H7]; try lia.
  exists v0, v1, v2, v3, v4, v5, v6, v7.
  unfold cubeValues. rewrite H0, H1, H2, H3, H4, H5, H6, H7.
  repeat split; reflexivity.
Qed.

Lemma cubePolygon_Some (n : nat) (w : grid float) (threshold : float)
    (x y z : nat) :
  cubic n w -> x + 1 < n -> y + 1 < n -> z + 1 < n ->
  exists polygon, cubePolygon w threshold x y z = Some polygon.
Proof.
  intros Hc Hx Hy Hz.
  destruct (cubeValues_Some n w x y z Hc Hx Hy Hz)
    as (v0 & v1 & v2 & v3 & v4 & v5 & v6 & v7 & _ & _ & _ & _ & _ & _ & _ & _ & Hv).
  unfold cubePolygon. rewrite Hv. simpl.
  rewrite marchingCubesPolygons_eq by reflexivity. eexists; reflexivity.
Qed.

(** [findPolygons] returns; it keeps the world, the threshold and the
    dimensions of the polygon grid, stores the polygon of the cube at
    (x,y,z) in every cell with x,y,z <= worldSize-2 and leaves the other
    cells as they were. *)
Lemma findPolygons_spec (self : Visualizer) :
  well_formed self ->
  exists polys,
    findPolygons self
    = Some (mkVisualizer (worldSize self) (world self) (worldThreshold self)
              polys) /\
    cubic (Z.to_nat (worldSize self)) polys /\
    (forall x y z,
       x < Z.to_nat (worldSize self) - 1 ->
       y < Z.to_nat (worldSize self) - 1 ->
       z < Z.to_nat (worldSize self) - 1 ->
       exists polygon,
         cubePolygon (world self) (worldThreshold self) x y z = Some polygon /\
         get3 polys x y z = Some polygon) /\
    (forall x y z,
       ~ (x < Z.to_nat (worldSize self) - 1 /\
          y < Z.to_nat (worldSize self) - 1 /\
          z < Z.to_nat (worldSize self) - 1) ->
       get3 polys x y z = get3 (polygons self) x y z).
Proof.
  intros [Hw Hp]. unfold findPolygons, rangeZ.
  replace (Z.to_nat (worldSize self - 1)) with (Z.to_nat (worldSize self) - 1)
    by lia.
  set (n := Z.to_nat (worldSize self)) in *.
  rewrite for3_list_prod.
  rewrite (foldM_ext _
             (cell_update (fun x y z _ =>
                cubePolygon (world self) (worldThreshold self) x y z)))
    by (intros s [x [y z]]; apply findPolygonsCell_update).
  destruct (foldM_cell_update
              (fun x y z (_ : list point) =>
                 cubePolygon (world self) (worldThreshold self) x y z)
              _ (NoDup_range3 (n - 1)) (polygons self))
    as (polys & Hrun & Hin & Hout & Hcub).
  { intros x y z Hi. apply In_range3 in Hi.
    destruct (cubic_get3 n (polygons self) x y z Hp) as [old Hold]; try lia.
    destruct (cubePolygon_Some n (world self) (worldThreshold self) x y z Hw)
      as [polygon Hpoly]; try lia.
    exists old, polygon. auto. }
  exists polys. rewrite Hrun. simpl. split; [reflexivity|].
  split; [apply Hcub, Hp|]. split.
  - intros x y z Hx Hy Hz.
    destruct (Hin x y z) as (old & _ & Hnew); [apply In_range3; lia|].
    destruct (cubePolygon_Some n (world self) (worldThreshold self) x y z Hw)
      as [polygon Hpoly]; try lia.
    exists polygon. split; [exact Hpoly|]. rewrite Hnew. exact Hpoly.
  - intros x y z Hni. apply Hout. rewrite In_range3. exact Hni.
Qed.

Lemma Forall_concat_rows {A : Type} (P : list A -> Prop)
    (g : list (list (list A))) :
  Forall (fun plane => Forall P plane) g -> Forall P (concat g).
Proof.
  induction 1 as [|plane g Hp _ IH]; simpl; [constructor|].
  apply Forall_app. split; assumption.
Qed.

Lemma length_concat_rows {A : Type} (n : nat) (l : list (list A)) :
  Forall (fun row => length row = n) l -> length (concat l) = length l * n.
Proof.
  induction 1 as [|row l Hrow _ IH]; simpl; [reflexivity|].
  rewrite length_app, IH, Hrow. reflexivity.
Qed.

Lemma cubic_entries {A : Type} (n : nat) (g : grid A) :
  cubic n g -> entries g = n * n * n.
Proof.
  intros [Hlen Hall]. unfold entries, samples.
  rewrite (length_concat_rows n).
  - rewrite (length_concat_rows n), Hlen; [reflexivity|].
    eapply Forall_impl; [|exact Hall]. simpl. tauto.
  - apply Forall_concat_rows.
    eapply Forall_impl; [|exact Hall]. simpl. tauto.
Qed.

Lemma example_visualizer_well_formed : well_formed example_visualizer.
Proof. split; (split; [reflexivity|repeat constructor]). Qed.

Lemma example_visualizer_mutated_well_formed :
  well_formed example_visualizer_mutated.
Proof. split; (split; [reflexivity|repeat constructor]). Qed.

(** * The claims on [findPolygons] *)

(** C6, as the specification states it, fails on the number of entries: the
    polygon grid that [__init__] allocates for a world of side 3 has 27
    entries, and [findPolygons] keeps them; (3-1)^3 is 8. *)
Lemma C6_counterexample :
  exists self',
    findPolygons example_visualizer = Some self' /\
    entries (polygons self') = 27 /\
    entries (polygons self') <> (3 - 1) * (3 - 1) * (3 - 1).
Proof.
  eexists. split; [vm_compute; reflexivity|].
  split; [reflexivity|]. vm_compute. discriminate.
Qed.

(** C6, amended: on a world of side worldSize with a polygon grid of side
    worldSize, [findPolygons] returns; the polygon grid keeps its worldSize^3
    entries; every entry (x,y,z) with 0 <= x,y,z <= worldSize-2 is the result
    of [marchingCubesPolygons] on the 8 samples at (x,y,z), (x+1,y,z),
    (x+1,y+1,z), (x,y+1,z), (x,y,z+1), (x+1,y,z+1), (x+1,y+1,z+1),
    (x,y+1,z+1), in this order; the other entries are left as they were. *)
Theorem C6_findPolygons_grid (self : Visualizer) :
  well_formed self ->
  exists polys,
    findPolygons self
    = Some (mkVisualizer (worldSize self) (world self) (worldThreshold self)
              polys) /\
    entries polys
    = Z.to_nat (worldSize self) * Z.to_nat (worldSize self)
      * Z.to_nat (worldSize self) /\
    (forall x y z,
       x < Z.to_nat (worldSize self) - 1 ->
       y < Z.to_nat (worldSize self) - 1 ->
       z < Z.to_nat (worldSize self) - 1 ->
       exists v0 v1 v2 v3 v4 v5 v6 v7 polygon,
         get3 (world self) x y z = Some v0 /\
         get3 (world self) (x+1) y z = Some v1 /\
         get3 (world self) (x+1) (y+1) z = Some v2 /\
         get3 (world self) x (y+1) z = Some v3 /\
         get3 (world self) x y (z+1) = Some v4 /\
         get3 (world self) (x+1) y (z+1) = Some v5 /\
         get3 (world self) (x+1) (y+1) (z+1) = Some v6 /\
         get3 (world self) x (y+1) (z+1) = Some v7 /\
         marchingCubesPolygons [v0; v1; v2; v3; v4; v5; v6; v7]
           (worldThreshold self) = Some polygon /\
         get3 polys x y z = Some polygon) /\
    (forall x y z,
       ~ (x < Z.to_nat (worldSize self) - 1 /\
          y < Z.to_nat (worldSize self) - 1 /\
          z < Z.to_nat (worldSize self) - 1) ->
       get3 polys x y z = get3 (polygons self) x y z).
Proof.
  intros Hwf. destruct (findPolygons_spec self Hwf)
    as (polys & Hrun & Hcub & Hin & Hout).
  exists polys. split; [exact Hrun|]. split; [apply cubic_entries, Hcub|].
  split; [|exact Hout].
  intros x y z Hx Hy Hz. destruct (Hin x y z Hx Hy Hz) as (polygon & Hp & Hg).
  destruct Hwf as [Hw _].
  destruct (cubeValues_Some _ (world self) x y z Hw)
    as (v0 & v1 & v2 & v3 & v4 & v5 & v6 & v7
        & H0 & H1 & H2 & H3 & H4 & H5 & H6 & H7 & Hv); try lia.
  exists v0, v1, v2, v3, v4, v5, v6, v7, polygon.
  unfold cubePolygon in Hp. rewrite Hv in Hp. simpl in Hp.
  repeat split; assumption.
Qed.

Lemma C6_witness :
  well_formed example_visualizer /\
  exists polys,
    findPolygons example_visualizer
    = Some (mkVisualizer (worldSize example_visualizer)
              (world example_visualizer) (worldThreshold example_visualizer)
              polys) /\
    entries polys
    = Z.to_nat (worldSize example_visualizer)
      * Z.to_nat (worldSize example_visualizer)
      * Z.to_nat (worldSize example_visualizer) /\
    (forall x y z,
       x < Z.to_nat (worldSize example_visualizer) - 1 ->
       y < Z.to_nat (worldSize example_visualizer) - 1 ->
       z < Z.to_nat (worldSize example_visualizer) - 1 ->
       exists v0 v1 v2 v3 v4 v5 v6 v7 polygon,
         get3 (world example_visualizer) x y z = Some v0 /\
         get3 (world example_visualizer) (x+1) y z = Some v1 /\
         get3 (world example_visualizer) (x+1) (y+1) z = Some v2 /\
         get3 (world example_visualizer) x (y+1) z = Some v3 /\
         get3 (world example_visualizer) x y (z+1) = Some v4 /\
         get3 (world example_visualizer) (x+1) y (z+1) = Some v5 /\
         get3 (world example_visualizer) (x+1) (y+1) (z+1) = Some v6 /\
         get3 (world example_visualizer) x (y+1) (z+1) = Some v7 /\
         marchingCubesPolygons [v0; v1; v2; v3; v4; v5; v6; v7]
           (worldThreshold example_visualizer) = Some polygon /\
         get3 polys x y z = Some polygon) /\
    (forall x y z,
       ~ (x < Z.to_nat (worldSize example_visualizer) - 1 /\
          y < Z.to_nat (worldSize example_visualizer) - 1 /\
          z < Z.to_nat (worldSize example_visualizer) - 1) ->
       get3 polys x y z = get3 (polygons example_visualizer) x y z).
Proof.
  split; [split; (split; [reflexivity|repeat constructor])|].
  apply (C6_findPolygons_grid example_visualizer).
  split; (split; [reflexivity|repeat constructor]).
Defined.

(** C7: the entry (x,y,z) that [findPolygons] stores depends only on the 8
    samples at (x..x+1, y..y+1, z..z+1): for two visualizers of the same
    side and threshold whose worlds agree on these 8 samples, whatever the
    other samples and the previous polygon grids are, both calls return and
    store the same polygon at (x,y,z). *)
Theorem C7_entry_depends_on_its_cube (s1 s2 : Visualizer) (x y z : nat) :
  well_formed s1 -> well_formed s2 ->
  worldSize s1 = worldSize s2 ->
  worldThreshold s1 = worldThreshold s2 ->
  x < Z.to_nat (worldSize s1) - 1 ->
  y < Z.to_nat (worldSize s1) - 1 ->
  z < Z.to_nat (worldSize s1) - 1 ->
  (forall dx dy dz, dx <= 1 -> dy <= 1 -> dz <= 1 ->
     get3 (world s1) (x + dx) (y + dy) (z + dz)
     = get3 (world s2) (x + dx) (y + dy) (z + dz)) ->
  exists s1' s2' polygon,
    findPolygons s1 = Some s1' /\
    findPolygons s2 = Some s2' /\
    get3 (polygons s1') x y z = Some polygon /\
    get3 (polygons s2') x y z = Some polygon.
Proof.
  intros Hwf1 Hwf2 Hsize Hthr Hx Hy Hz Hagree.
  destruct (findPolygons_spec s1 Hwf1) as (p1 & Hrun1 & _ & Hin1 & _).
  destruct (findPolygons_spec s2 Hwf2) as (p2 & Hrun2 & _ & Hin2 & _).
  destruct (Hin1 x y z Hx Hy Hz) as (polygon & Hp1 & Hg1).
  rewrite <- Hsize in Hin2.
  destruct (Hin2 x y z Hx Hy Hz) as (polygon' & Hp2 & Hg2).
  assert (Hsame : cubePolygon (world s1) (worldThreshold s1) x y z
                  = cubePolygon (world s2) (worldThreshold s2) x y z).
  { unfold cubePolygon, cubeValues. rewrite Hthr.
    pose proof (Hagree 0 0 0) as A000. pose proof (Hagree 1 0 0) as A100.
    pose proof (Hagree 1 1 0) as A110. pose proof (Hagree 0 1 0) as A010.
    pose proof (Hagree 0 0 1) as A001. pose proof (Hagree 1 0 1) as A101.
    pose proof (Hagree 1 1 1) as A111. pose proof (Hagree 0 1 1) as A011.
    rewrite ?Nat.add_0_r in *.
    rewrite A000, A100, A110, A010, A001, A101, A111, A011 by lia.
    reflexivity. }
  rewrite Hsame, Hp2 in Hp1. injection Hp1 as <-.
  eexists _, _, polygon'. rewrite Hrun1, Hrun2. simpl. auto.
Qed.

Lemma C7_witness :
  exists s1' s2' polygon,
    findPolygons example_visualizer = Some s1' /\
    findPolygons example_visualizer_mutated = Some s2' /\
    get3 (polygons s1') 0 0 0 = Some polygon /\
    get3 (polygons s2') 0 0 0 = Some polygon.
Proof.
  apply (C7_entry_depends_on_its_cube
           example_visualizer example_visualizer_mutated 0 0 0).
  - split; (split; [reflexivity|repeat constructor]).
  - split; (split; [reflexivity|repeat constructor]).
  - reflexivity.
  - reflexivity.
  - simpl; lia.
  - simpl; lia.
  - simpl; lia.
  - intros dx dy dz Hx Hy Hz.
    assert (Ex : dx = 0 \/ dx = 1) by lia.
    assert (Ey : dy = 0 \/ dy = 1) by lia.
    assert (Ez : dz = 0 \/ dz = 1) by lia.
    destruct Ex as [-> | ->], Ey as [-> | ->], Ez as [-> | ->]; reflexivity.
Defined.

(** Only the sample at (2,2,2) differs in the two example worlds: the other
    26 are equal, this one is not. *)
Lemma example_worlds_differ :
  get3 example_world 2 2 2 <> get3 example_world_mutated 2 2 2.
Proof.
  intros H. apply (f_equal (fun o => match o with
                                     | Some v => PrimFloat.ltb v 0.5
                                     | None => false
                                     end)) in H.
  vm_compute in H. discriminate.
Qed.

(** * The normalisation of [calculateWorldValues] *)

(** In binary64 arithmetic [(c - c) / (c - c)] is a NaN for every [c]: the
    difference is a zero when [c] is finite and a NaN otherwise. *)
Lemma sub_self_div_nan (c : float) :
  PrimFloat.is_nan (PrimFloat.div (PrimFloat.sub c c) (PrimFloat.sub c c)) = true.
Proof.
  unfold PrimFloat.is_nan. rewrite eqb_spec, div_spec, sub_spec.
  assert (H : SF64sub (Prim2SF c) (Prim2SF c) = S754_nan \/
              exists s, SF64sub (Prim2SF c) (Prim2SF c) = S754_zero s).
  { unfold SF64sub. destruct (Prim2SF c) as [s|s| |s m e]; simpl.
    - right. exists false. destruct s; reflexivity.
    - left. destruct s; reflexivity.
    - left. reflexivity.
    - right. exists false. rewrite Z.sub_diag. reflexivity. }
  destruct H as [-> | [s ->]]; reflexivity.
Qed.

Lemma np_maximum_same (c : float) : np_maximum c c = c.
Proof. unfold np_maximum. destruct (_ || _); reflexivity. Qed.

Lemma np_minimum_same (c : float) : np_minimum c c = c.
Proof. unfold np_minimum. destruct (_ || _); reflexivity. Qed.

Lemma fold_left_same (op : float -> float -> float) (c : float)
    (l : list float) :
  op c c = c -> (forall v, In v l -> v = c) -> fold_left op l c = c.
Proof.
  intros Hop. induction l as [|v l IH]; intros Hall; simpl; [reflexivity|].
  rewrite (Hall v (or_introl eq_refl)), Hop. apply IH.
  intros v' Hv'. apply Hall. right. exact Hv'.
Qed.

Lemma get3_In_samples {A : Type} (g : grid A) (x y z : nat) (v : A) :
  get3 g x y z = Some v -> In v (samples g).
Proof.
  unfold get3, samples. intros H.
  destruct (nth_error g x) as [plane|] eqn:Ex; simpl in H; [|discriminate].
  destruct (nth_error plane y) as [row|] eqn:Ey; simpl in H; [|discriminate].
  apply in_concat. exists row. split; [|eapply nth_error_In, H].
  apply in_concat. exists plane. split; eapply nth_error_In; eassumption.
Qed.

Lemma normalizeCell_update (worldMax worldMin : float) (w : grid float)
    (x y z : nat) :
  normalizeCell worldMax worldMin w x y z
  = cell_update
      (fun _ _ _ v =>
         Some (PrimFloat.div (PrimFloat.sub v worldMin)
                             (PrimFloat.sub worldMax worldMin)))
      w (x, (y, z)).
Proof.
  unfold normalizeCell, cell_update.
  destruct (get3 w x y z); reflexivity.
Qed.

(** The normalisation of a world whose samples all equal [c] leaves a NaN
    in every cell. *)
Lemma normalizeWorld_constant (n : nat) (w : grid float) (c : float) :
  0 < n -> cubic n w -> (forall v, In v (samples w) -> v = c) ->
  exists w',
    normalizeWorld (Z.of_nat n) w = Some w' /\
    cubic n w' /\
    forall x y z, x < n -> y < n -> z < n ->
      exists q, get3 w' x y z = Some q /\ PrimFloat.is_nan q = true.
Proof.
  intros Hn Hc Hall. unfold normalizeWorld, np_max, np_min.
  destruct (samples w) as [|v l] eqn:Hs.
  { pose proof (cubic_entries n w Hc) as He. unfold entries in He.
    rewrite Hs in He. simpl in He. destruct n; simpl in He; lia. }
  assert (Hv : v = c) by (apply Hall; left; reflexivity).
  assert (Hl : forall v', In v' l -> v' = c)
    by (intros v' Hv'; apply Hall; right; exact Hv').
  rewrite Hv, (fold_left_same np_maximum c l (np_maximum_same c) Hl),
    (fold_left_same np_minimum c l (np_minimum_same c) Hl).
  simpl. unfold rangeZ. rewrite Nat2Z.id, for3_list_prod.
  rewrite (foldM_ext _ _ _ (fun s i =>
             normalizeCell_update c c s (fst i) (fst (snd i)) (snd (snd i)))).
  rewrite (foldM_ext _
             (cell_update (fun _ _ _ v0 =>
                Some (PrimFloat.div (PrimFloat.sub v0 c) (PrimFloat.sub c c)))))
    by (intros s [x [y z]]; reflexivity).
  destruct (foldM_cell_update
              (fun (_ _ _ : nat) v0 =>
                 Some (PrimFloat.div (PrimFloat.sub v0 c) (PrimFloat.sub c c)))
              _ (NoDup_range3 n) w)
    as (w' & Hrun & Hin & _ & Hcub).
  { intros x y z Hi. apply In_range3 in Hi.
    destruct (cubic_get3 n w x y z Hc) as [old Hold]; try lia.
    exists old. eexists. split; [exact Hold|reflexivity]. }
  exists w'. split; [exact Hrun|]. split; [apply Hcub, Hc|].
  intros x y z Hx Hy Hz.
  destruct (Hin x y z) as (old & Hold & Hnew); [apply In_range3; lia|].
  assert (old = c) by (rewrite <- Hs in Hall; eapply Hall, get3_In_samples, Hold).
  subst old. eexists. split; [exact Hnew|]. apply sub_self_div_nan.
Qed.

(** A NaN is not equal ([==]) to zero. *)
Lemma nan_not_zero (q : float) :
  PrimFloat.is_nan q = true -> PrimFloat.eqb q 0 = false.
Proof.
  unfold PrimFloat.is_nan. rewrite !eqb_spec. unfold SFeqb.
  destruct (Prim2SF q) as [s|s| |s m e]; simpl; try reflexivity;
    try (destruct s; simpl; intros H; reflexivity || discriminate H).
Qed.

(** C5, on the code: the normalisation does not guard [worldMax == worldMin].
    [MarchingCubesVisualizer(worldSize=0)] builds a world of one sample,
    whatever the noise function and the seed are; the world is then
    constant, and its normalised sample is the NaN [0/0], not 0. *)
Theorem C5_constant_world_gives_nan
    (snoise4 : float -> float -> float -> float -> float) (pNoiseSeed : float) :
  exists q,
    init snoise4 pNoiseSeed 0
    = Some (mkVisualizer 1 [[[q]]] 0.5%float [[[ [] ]]]) /\
    PrimFloat.is_nan q = true /\
    PrimFloat.eqb q 0 = false.
Proof.
  eexists. split; [vm_compute; reflexivity|].
  split; [|apply nan_not_zero]; apply sub_self_div_nan.
Qed.

(** The same on a world of side 2 whose 8 samples are 0.25. *)
Example normalizeWorld_constant_2 :
  normalizeWorld 2 (alloc 2 0.25%float) = Some (alloc 2 PrimFloat.nan).
Proof. vm_compute. reflexivity. Qed.

(** * Further properties of [marchingCubesPolygons] *)

(** The first loop raises as soon as an edge names a corner that the list of
    values does not have. *)
Lemma activeEdgesOf_None (values : list float) (threshold : float)
    (edges : list edge) :
  Exists (fun e : edge => length values <= fst e \/ length values <= snd e)
         edges ->
  activeEdgesOf values threshold edges = None.
Proof.
  induction edges as [|e rest IH]; intros H; [inversion H|].
  simpl. destruct (nth_error values (fst e)) as [v0|] eqn:E0; [|reflexivity].
  destruct (nth_error values (snd e)) as [v1|] eqn:E1; [|reflexivity].
  simpl. inversion H as [? ? [Hf|Hs]|? ? Hrest]; subst.
  - apply nth_error_None in Hf. congruence.
  - apply nth_error_None in Hs. congruence.
  - rewrite (IH Hrest). reflexivity.
Qed.

(** With 8 values or more the function returns the greedy chain. *)
Lemma marchingCubesPolygons_ge8 (values : list float) (threshold : float) :
  8 <= length values ->
  marchingCubesPolygons values threshold
  = Some (greedy_chain
            (map midpoint (filter (straddles values threshold) EDGES))).
Proof.
  intros Hlen. unfold marchingCubesPolygons.
  rewrite activeEdgesOf_filter.
  - simpl. apply sortLoop_greedy.
  - eapply Forall_impl; [|exact EDGES_in_range]. simpl. lia.
Qed.

(** X1: the function raises (an [IndexError]) exactly when it is given
    fewer than 8 values. *)
Theorem X1_raises_iff_fewer_than_8_values
    (values : list float) (threshold : float) :
  marchingCubesPolygons values threshold = None <-> length values < 8.
Proof.
  split.
  - intros Hnone. destruct (Nat.lt_ge_cases (length values) 8) as [H|H];
      [exact H|].
    rewrite marchingCubesPolygons_ge8 in Hnone by exact H. discriminate.
  - intros Hlen. unfold marchingCubesPolygons.
    rewrite activeEdgesOf_None; [reflexivity|].
    apply Exists_exists. exists (3, 7). split; [|simpl; lia].
    unfold EDGES. simpl. tauto.
Qed.

Lemma above_firstn (values : list float) (threshold : float) (i : nat) :
  i < 8 -> above (firstn 8 values) threshold i = above values threshold i.
Proof.
  intros Hi. unfold above. rewrite nth_error_firstn.
  destruct (Nat.ltb_spec i 8); [reflexivity|lia].
Qed.

(** X2: the values after the first 8 are ignored. *)
Theorem X2_values_after_the_eighth_are_ignored
    (values : list float) (threshold : float) :
  8 <= length values ->
  marchingCubesPolygons values threshold
  = marchingCubesPolygons (firstn 8 values) threshold.
Proof.
  intros Hlen. rewrite marchingCubesPolygons_ge8 by exact Hlen.
  rewrite marchingCubesPolygons_ge8 by (rewrite length_firstn; lia).
  do 3 f_equal. apply filter_ext_in. intros e He.
  pose proof EDGES_in_range as Hr. rewrite Forall_forall in Hr.
  destruct (Hr e He) as [H0 H1]. unfold straddles.
  rewrite !above_firstn by assumption. reflexivity.
Qed.

Lemma X2_witness :
  8 <= length (example_values ++ [0.75; 0.25]%float) /\
  marchingCubesPolygons (example_values ++ [0.75; 0.25]%float) 0.5
  = marchingCubesPolygons (firstn 8 (example_values ++ [0.75; 0.25]%float)) 0.5.
Proof.
  split; [simpl; lia|].
  apply (X2_values_after_the_eighth_are_ignored
           (example_values ++ [0.75; 0.25]%float) 0.5).
  simpl; lia.
Defined.

(** X3: the polygon depends on the values and the threshold only through
    the 8 results of [values[i] > threshold]: two calls with the same
    results return the same polygon. *)
Theorem X3_polygon_depends_on_comparisons_only
    (values values' : list float) (threshold threshold' : float) :
  length values = 8 ->
  map (fun v => gt v threshold) values
  = map (fun v => gt v threshold') values' ->
  exists polygon,
    marchingCubesPolygons values threshold = Some polygon /\
    marchingCubesPolygons values' threshold' = Some polygon.
Proof.
  intros Hlen Hbits.
  assert (Hlen' : length values' = 8).
  { apply (f_equal (@length bool)) in Hbits.
    rewrite !length_map in Hbits. lia. }
  eexists. split; [apply marchingCubesPolygons_eq, Hlen|].
  rewrite marchingCubesPolygons_eq by exact Hlen'.
  rewrite !greedy_chain_bits, Hbits. reflexivity.
Qed.

Lemma X3_witness :
  length example_values = 8 /\
  map (fun v => gt v 0.5) example_values
  = map (fun v => gt v 10) [3; 20; 30; 4; 5; 60; 70; 8]%float /\
  exists polygon,
    marchingCubesPolygons example_values 0.5 = Some polygon /\
    marchingCubesPolygons [3; 20; 30; 4; 5; 60; 70; 8]%float 10 = Some polygon.
Proof.
  split; [reflexivity|]. split; [reflexivity|].
  apply (X3_polygon_depends_on_comparisons_only
           example_values [3; 20; 30; 4; 5; 60; 70; 8]%float 0.5 10);
    reflexivity.
Defined.

Lemma nth_map_negb (bits : list bool) (i : nat) :
  i < length bits -> nth i (map negb bits) false = negb (nth i bits false).
Proof.
  revert i. induction bits as [|b bits IH]; intros [|i] Hi; simpl in *;
    try lia; [reflexivity|]. apply IH. lia.
Qed.

Lemma bit_straddles_negb (bits : list bool) (e : edge) :
  fst e < length bits -> snd e < length bits ->
  bit_straddles (map negb bits) e = bit_straddles bits e.
Proof.
  intros H0 H1. unfold bit_straddles.
  rewrite (nth_map_negb bits (fst e) H0), (nth_map_negb bits (snd e) H1).
  destruct (nth (fst e) bits false), (nth (snd e) bits false); reflexivity.
Qed.

(** X4: exchanging the two sides of the threshold does not change the
    polygon: when every comparison result of one call is the negation of
    that of the other, both calls return the same polygon. *)
Theorem X4_polygon_of_the_complement
    (values values' : list float) (threshold threshold' : float) :
  length values = 8 ->
  map (fun v => gt v threshold) values
  = map (fun v => negb (gt v threshold')) values' ->
  exists polygon,
    marchingCubesPolygons values threshold = Some polygon /\
    marchingCubesPolygons values' threshold' = Some polygon.
Proof.
  intros Hlen Hbits.
  assert (Hlen' : length values' = 8).
  { apply (f_equal (@length bool)) in Hbits.
    rewrite !length_map in Hbits. lia. }
  eexists. split; [apply marchingCubesPolygons_eq, Hlen|].
  rewrite marchingCubesPolygons_eq by exact Hlen'.
  rewrite !greedy_chain_bits, Hbits.
  rewrite <- (map_map (fun v => gt v threshold') negb).
  unfold polygon_of_bits.
  rewrite (filter_ext_in
             (bit_straddles (map (fun v => gt v threshold') values'))
             (bit_straddles (map negb (map (fun v => gt v threshold') values')))
             EDGES); [reflexivity|].
  intros e He.
  pose proof EDGES_in_range as Hr. rewrite Forall_forall in Hr.
  destruct (Hr e He) as [H0 H1].
  symmetry. apply bit_straddles_negb; rewrite length_map, Hlen'; assumption.
Qed.

Lemma X4_witness :
  length example_values = 8 /\
  map (fun v => gt v 0.5) example_values
  = map (fun v => negb (gt v 10)) [30; 2; 3; 40; 50; 6; 7; 80]%float /\
  exists polygon,
    marchingCubesPolygons example_values 0.5 = Some polygon /\
    marchingCubesPolygons [30; 2; 3; 40; 50; 6; 7; 80]%float 10 = Some polygon.
Proof.
  split; [reflexivity|]. split; [reflexivity|].
  apply (X4_polygon_of_the_complement
           example_values [30; 2; 3; 40; 50; 6; 7; 80]%float 0.5 10);
    reflexivity.
Defined.

(** * Further properties of the grids and of [findPolygons] *)

(** Two grids of the same side with the same cells are equal. *)
Lemma grid_ext {A : Type} (n : nat) (g g' : grid A) :
  cubic n g -> cubic n g' ->
  (forall x y z, x < n -> y < n -> z < n -> get3 g x y z = get3 g' x y z) ->
  g = g'.
Proof.
  intros [Hl Hall] [Hl' Hall'] Hget. rewrite Forall_forall in Hall, Hall'.
  apply nth_error_ext. intros x.
  destruct (Nat.lt_ge_cases x n) as [Hx|Hx].
  2:{ rewrite (proj2 (nth_error_None g x)), (proj2 (nth_error_None g' x));
        [reflexivity|lia|lia]. }
  destruct (nth_error g x) as [p|] eqn:Ep; [|apply nth_error_None in Ep; lia].
  destruct (nth_error g' x) as [p'|] eqn:Ep';
    [|apply nth_error_None in Ep'; lia].
  destruct (Hall p (nth_error_In _ _ Ep)) as [Hpl Hrows].
  destruct (Hall' p' (nth_error_In _ _ Ep')) as [Hpl' Hrows'].
  rewrite Forall_forall in Hrows, Hrows'.
  f_equal. apply nth_error_ext. intros y.
  destruct (Nat.lt_ge_cases y n) as [Hy|Hy].
  2:{ rewrite (proj2 (nth_error_None p y)), (proj2 (nth_error_None p' y));
        [reflexivity|lia|lia]. }
  destruct (nth_error p y) as [r|] eqn:Er; [|apply nth_error_None in Er; lia].
  destruct (nth_error p' y) as [r'|] eqn:Er';
    [|apply nth_error_None in Er'; lia].
  pose proof (Hrows r (nth_error_In _ _ Er)) as Hrl.
  pose proof (Hrows' r' (nth_error_In _ _ Er')) as Hrl'.
  f_equal. apply nth_error_ext. intros z.
  destruct (Nat.lt_ge_cases z n) as [Hz|Hz].
  2:{ rewrite (proj2 (nth_error_None r z)), (proj2 (nth_error_None r' z));
        [reflexivity|lia|lia]. }
  specialize (Hget x y z Hx Hy Hz). unfold get3 in Hget.
  rewrite Ep, Ep' in Hget. simpl in Hget. rewrite Er, Er' in Hget.
  exact Hget.
Qed.

(** X5: a second call of [findPolygons], with the world and the threshold
    unchanged, returns the state it is given: the recomputation changes
    nothing. *)
Theorem X5_findPolygons_idempotent (self : Visualizer) :
  well_formed self ->
  exists self',
    findPolygons self = Some self' /\ findPolygons self' = Some self'.
Proof.
  intros Hwf. destruct (findPolygons_spec self Hwf)
    as (polys & Hrun & Hcub & Hin & Hout).
  eexists. split; [exact Hrun|].
  assert (Hwf' : well_formed
            (mkVisualizer (worldSize self) (world self) (worldThreshold self)
               polys)).
  { split; simpl; [apply Hwf|exact Hcub]. }
  destruct (findPolygons_spec _ Hwf') as (polys2 & Hrun2 & Hcub2 & Hin2 & Hout2).
  simpl in *. rewrite Hrun2. do 2 f_equal.
  apply (grid_ext (Z.to_nat (worldSize self))); try assumption.
  intros x y z Hx Hy Hz.
  destruct (Nat.lt_ge_cases x (Z.to_nat (worldSize self) - 1)) as [Hx'|Hx'];
    [|apply Hout2; lia].
  destruct (Nat.lt_ge_cases y (Z.to_nat (worldSize self) - 1)) as [Hy'|Hy'];
    [|apply Hout2; lia].
  destruct (Nat.lt_ge_cases z (Z.to_nat (worldSize self) - 1)) as [Hz'|Hz'];
    [|apply Hout2; lia].
  destruct (Hin x y z Hx' Hy' Hz') as (p1 & Hp1 & Hg1).
  destruct (Hin2 x y z Hx' Hy' Hz') as (p2 & Hp2 & Hg2).
  congruence.
Qed.

Lemma X5_witness :
  well_formed example_visualizer /\
  exists self',
    findPolygons example_visualizer = Some self' /\
    findPolygons self' = Some self'.
Proof.
  split; [split; (split; [reflexivity|repeat constructor])|].
  apply (X5_findPolygons_idempotent example_visualizer).
  split; (split; [reflexivity|repeat constructor]).
Defined.

(** X6: with [worldSize] at most 1 there is no cube: [findPolygons] returns
    the state as it is and raises nothing, whatever the world and the
    polygon grid hold. *)
Theorem X6_findPolygons_without_cubes (self : Visualizer) :
  (worldSize self <= 1)%Z -> findPolygons self = Some self.
Proof.
  intros Hws. unfold findPolygons, rangeZ.
  replace (Z.to_nat (worldSize self - 1)) with 0 by lia.
  destruct self; reflexivity.
Qed.

Lemma X6_witness :
  (worldSize (mkVisualizer 1 [[[0.25%float]]] 0.5%float []) <= 1)%Z /\
  findPolygons (mkVisualizer 1 [[[0.25%float]]] 0.5%float [])
  = Some (mkVisualizer 1 [[[0.25%float]]] 0.5%float []).
Proof.
  split; [simpl; lia|].
  apply (X6_findPolygons_without_cubes
           (mkVisualizer 1 [[[0.25%float]]] 0.5%float [])).
  simpl; lia.
Defined.

(** X7: when no sample of the world is greater than the threshold, or when
    all are, no surface is found: every cell that [findPolygons] fills
    holds the empty polygon. *)
Theorem X7_no_crossing_no_polygon (self : Visualizer) (side : bool) :
  well_formed self ->
  (forall v, In v (samples (world self)) ->
     gt v (worldThreshold self) = side) ->
  exists self',
    findPolygons self = Some self' /\
    forall x y z,
      x < Z.to_nat (worldSize self) - 1 ->
      y < Z.to_nat (worldSize self) - 1 ->
      z < Z.to_nat (worldSize self) - 1 ->
      get3 (polygons self') x y z = Some [].
Proof.
  intros Hwf Hside. destruct (findPolygons_spec self Hwf)
    as (polys & Hrun & _ & Hin & _).
  eexists. split; [exact Hrun|]. simpl.
  intros x y z Hx Hy Hz. destruct (Hin x y z Hx Hy Hz) as (polygon & Hp & Hg).
  rewrite Hg. f_equal.
  destruct Hwf as [Hw _].
  destruct (cubeValues_Some _ (world self) x y z Hw)
    as (v0 & v1 & v2 & v3 & v4 & v5 & v6 & v7
        & H0 & H1 & H2 & H3 & H4 & H5 & H6 & H7 & Hv); try lia.
  unfold cubePolygon in Hp. rewrite Hv in Hp. simpl in Hp.
  rewrite marchingCubesPolygons_eq in Hp by reflexivity.
  rewrite (one_side_empty [v0; v1; v2; v3; v4; v5; v6; v7]
             (worldThreshold self) side eq_refl) in Hp; [congruence|].
  intros v Hv'. apply Hside.
  simpl in Hv'.
  repeat (destruct Hv' as [<-|Hv']; [eapply get3_In_samples; eassumption|]).
  contradiction.
Qed.

Lemma X7_witness :
  well_formed (mkVisualizer 3 example_world 0.75%float (alloc 3 [])) /\
  exists self',
    findPolygons (mkVisualizer 3 example_world 0.75%float (alloc 3 []))
    = Some self' /\
    forall x y z, x < 2 -> y < 2 -> z < 2 ->
      get3 (polygons self') x y z = Some [].
Proof.
  split; [split; (split; [reflexivity|repeat constructor])|].
  apply (X7_no_crossing_no_polygon
           (mkVisualizer 3 example_world 0.75%float (alloc 3 [])) false).
  - split; (split; [reflexivity|repeat constructor]).
  - intros v Hv. vm_compute in Hv.
    repeat (destruct Hv as [<-|Hv]; [reflexivity|]). contradiction.
Defined.

(** * Further properties of [calculateWorldValues] and [__init__] *)

Lemma repeat_Forall {A : Type} (P : A -> Prop) (a : A) (n : nat) :
  P a -> Forall P (repeat a n).
Proof. intros Ha. induction n; simpl; constructor; assumption. Qed.

Lemma alloc_cubic {A : Type} (n : nat) (v : A) : cubic n (alloc n v).
Proof.
  unfold cubic, alloc. split; [apply repeat_length|].
  apply repeat_Forall. split; [apply repeat_length|].
  apply repeat_Forall. apply repeat_length.
Qed.

Lemma get3_alloc {A : Type} (n : nat) (v : A) (x y z : nat) :
  x < n -> y < n -> z < n -> get3 (alloc n v) x y z = Some v.
Proof.
  intros Hx Hy Hz. unfold get3, alloc.
  rewrite (nth_error_repeat _ Hx). simpl.
  rewrite (nth_error_repeat _ Hy). simpl.
  apply nth_error_repeat, Hz.
Qed.

Lemma nth_error_map_range {A : Type} (f : nat -> A) (n i : nat) :
  i < n -> nth_error (map f (range n)) i = Some (f i).
Proof.
  intros Hi. unfold range. rewrite nth_error_map, nth_error_seq.
  destruct (Nat.ltb_spec i n); [reflexivity|lia].
Qed.

Lemma field_cubic (n : nat) (f : nat -> nat -> nat -> float) :
  cubic n (field n f).
Proof.
  unfold cubic, field, range. split; [rewrite length_map; apply length_seq|].
  apply Forall_map, Forall_forall. intros x _.
  split; [rewrite length_map; apply length_seq|].
  apply Forall_map, Forall_forall. intros y _.
  rewrite length_map. apply length_seq.
Qed.

Lemma get3_field (n : nat) (f : nat -> nat -> nat -> float) (x y z : nat) :
  x < n -> y < n -> z < n -> get3 (field n f) x y z = Some (f x y z).
Proof.
  intros Hx Hy Hz. unfold get3, field.
  rewrite (nth_error_map_range _ _ _ Hx). simpl.
  rewrite (nth_error_map_range _ _ _ Hy). simpl.
  apply nth_error_map_range, Hz.
Qed.

(** A loop over all the cells of a grid of side [n] that stores [h x y z]
    in every cell leaves the field of [h]. *)
Lemma for3_field (n : nat) (F : nat -> nat -> nat -> float -> option float)
    (h : nat -> nat -> nat -> float)
    (body : grid float -> nat -> nat -> nat -> option (grid float))
    (g : grid float) :
  (forall s x y z, body s x y z = cell_update F s (x, (y, z))) ->
  cubic n g ->
  (forall x y z old, x < n -> y < n -> z < n ->
     get3 g x y z = Some old -> F x y z old = Some (h x y z)) ->
  for3 (range n) (range n) (range n) body g = Some (field n h).
Proof.
  intros Hbody Hc HF. rewrite for3_list_prod.
  rewrite (foldM_ext _ (cell_update F))
    by (intros s [x [y z]]; apply Hbody).
  destruct (foldM_cell_update F _ (NoDup_range3 n) g)
    as (g' & Hrun & Hin & _ & Hcub).
  { intros x y z Hi. apply In_range3 in Hi.
    destruct (cubic_get3 n g x y z Hc) as [old Hold]; try lia.
    exists old, (h x y z). split; [exact Hold|]. apply HF; tauto. }
  rewrite Hrun. f_equal.
  apply (grid_ext n); [apply Hcub, Hc|apply field_cubic|].
  intros x y z Hx Hy Hz.
  destruct (Hin x y z) as (old & Hold & Hnew); [apply In_range3; lia|].
  rewrite Hnew, get3_field by assumption. apply HF; assumption.
Qed.

Lemma generateCell_update
    (snoise4 : float -> float -> float -> float -> float) (pNoiseSeed : float)
    (n : Z) (w : grid float) (x y z : nat) :
  generateCell snoise4 pNoiseSeed n w x y z
  = cell_update (fun x y z _ => Some (noiseSample snoise4 pNoiseSeed n x y z))
      w (x, (y, z)).
Proof.
  unfold generateCell, cell_update, noiseSample.
  destruct (get3 w x y z) eqn:E; simpl; [reflexivity|].
  apply set3_None, E.
Qed.

Lemma samples_nonempty {A : Type} (n : nat) (g : grid A) :
  0 < n -> cubic n g -> samples g <> [].
Proof.
  intros Hn Hc Hs. pose proof (cubic_entries n g Hc) as He.
  unfold entries in He. rewrite Hs in He. simpl in He.
  destruct n; simpl in He; lia.
Qed.

(** [calculateWorldValues] on a world of side [worldSize] >= 1: the world
    becomes the field of the normalised noise, whatever it held before. *)
Lemma calculateWorldValues_spec
    (snoise4 : float -> float -> float -> float -> float) (pNoiseSeed : float)
    (self : Visualizer) :
  0 < Z.to_nat (worldSize self) ->
  cubic (Z.to_nat (worldSize self)) (world self) ->
  exists worldMax worldMin,
    np_max (field (Z.to_nat (worldSize self))
              (noiseSample snoise4 pNoiseSeed (worldSize self)))
    = Some worldMax /\
    np_min (field (Z.to_nat (worldSize self))
              (noiseSample snoise4 pNoiseSeed (worldSize self)))
    = Some worldMin /\
    calculateWorldValues snoise4 pNoiseSeed self
    = Some (mkVisualizer (worldSize self)
              (field (Z.to_nat (worldSize self))
                 (fun x y z =>
                    PrimFloat.div
                      (PrimFloat.sub
                         (noiseSample snoise4 pNoiseSeed (worldSize self) x y z)
                         worldMin)
                      (PrimFloat.sub worldMax worldMin)))
              (worldThreshold self) (polygons self)).
Proof.
  intros Hn Hc. unfold calculateWorldValues, rangeZ.
  set (n := Z.to_nat (worldSize self)) in *.
  set (N := noiseSample snoise4 pNoiseSeed (worldSize self)).
  rewrite (for3_field n (fun x y z _ => Some (N x y z)) N);
    [|intros; apply generateCell_update|exact Hc|reflexivity].
  simpl. unfold normalizeWorld, np_max, np_min, rangeZ. fold n.
  pose proof (samples_nonempty n (field n N) Hn (field_cubic n N)) as Hne.
  destruct (samples (field n N)) as [|v l]; [congruence|].
  eexists _, _. split; [reflexivity|]. split; [reflexivity|]. simpl.
  rewrite (for3_field n
             (fun _ _ _ v0 =>
                Some (PrimFloat.div (PrimFloat.sub v0 (fold_left np_minimum l v))
                        (PrimFloat.sub (fold_left np_maximum l v)
                           (fold_left np_minimum l v))))
             (fun x y z =>
                PrimFloat.div (PrimFloat.sub (N x y z) (fold_left np_minimum l v))
                  (PrimFloat.sub (fold_left np_maximum l v)
                     (fold_left np_minimum l v)))).
  - reflexivity.
  - intros. apply normalizeCell_update.
  - apply field_cubic.
  - intros x y z old Hx Hy Hz Hold.
    rewrite get3_field in Hold by assumption. congruence.
Qed.

(** X8: on a world of side [worldSize] >= 1, [calculateWorldValues] returns
    and replaces the world by the noise field [snoise4(x/worldSize,
    y/worldSize, z/worldSize, seed)] normalised with the maximum and the
    minimum of that field, (sample - min) / (max - min) in every cell,
    whatever the world held before; the side, the threshold and the polygon
    grid are kept as they are. *)
Theorem X8_calculateWorldValues_normalised_noise
    (snoise4 : float -> float -> float -> float -> float) (pNoiseSeed : float)
    (self : Visualizer) :
  0 < Z.to_nat (worldSize self) ->
  cubic (Z.to_nat (worldSize self)) (world self) ->
  exists worldMax worldMin,
    np_max (field (Z.to_nat (worldSize self))
              (noiseSample snoise4 pNoiseSeed (worldSize self)))
    = Some worldMax /\
    np_min (field (Z.to_nat (worldSize self))
              (noiseSample snoise4 pNoiseSeed (worldSize self)))
    = Some worldMin /\
    calculateWorldValues snoise4 pNoiseSeed self
    = Some (mkVisualizer (worldSize self)
              (field (Z.to_nat (worldSize self))
                 (fun x y z =>
                    PrimFloat.div
                      (PrimFloat.sub
                         (noiseSample snoise4 pNoiseSeed (worldSize self) x y z)
                         worldMin)
                      (PrimFloat.sub worldMax worldMin)))
              (worldThreshold self) (polygons self)).
Proof. apply calculateWorldValues_spec. Qed.

Lemma X8_witness :
  0 < Z.to_nat (worldSize example_visualizer) /\
  cubic (Z.to_nat (worldSize example_visualizer)) (world example_visualizer) /\
  exists worldMax worldMin,
    np_max (field (Z.to_nat (worldSize example_visualizer))
              (noiseSample example_noise 0.5 (worldSize example_visualizer)))
    = Some worldMax /\
    np_min (field (Z.to_nat (worldSize example_visualizer))
              (noiseSample example_noise 0.5 (worldSize example_visualizer)))
    = Some worldMin /\
    calculateWorldValues example_noise 0.5 example_visualizer
    = Some (mkVisualizer (worldSize example_visualizer)
              (field (Z.to_nat (worldSize example_visualizer))
                 (fun x y z =>
                    PrimFloat.div
                      (PrimFloat.sub
                         (noiseSample example_noise 0.5
                            (worldSize example_visualizer) x y z)
                         worldMin)
                      (PrimFloat.sub worldMax worldMin)))
              (worldThreshold example_visualizer)
              (polygons example_visualizer)).
Proof.
  split; [simpl; lia|].
  split; [split; [reflexivity|repeat constructor]|].
  apply (X8_calculateWorldValues_normalised_noise
           example_noise 0.5 example_visualizer).
  - simpl; lia.
  - split; [reflexivity|repeat constructor].
Defined.

(** X9: the constructor raises for a [worldSize] argument below 0: the
    world then has no sample and [np.max] of it is a [ValueError]. *)
Theorem X9_init_raises_below_zero
    (snoise4 : float -> float -> float -> float -> float) (pNoiseSeed : float)
    (worldSizeArg : Z) :
  (worldSizeArg < 0)%Z -> init snoise4 pNoiseSeed worldSizeArg = None.
Proof.
  intros Hneg. unfold init, calculateWorldValues, rangeZ. simpl.
  replace (Z.to_nat (worldSizeArg + 1)) with 0 by lia.
  reflexivity.
Qed.

Lemma X9_witness :
  (-1 < 0)%Z /\ init example_noise 0.5 (-1) = None.
Proof.
  split; [lia|]. apply (X9_init_raises_below_zero example_noise 0.5 (-1)). lia.
Defined.

(** X10: for a [worldSize] argument of 0 or more the constructor returns a
    visualizer of side [worldSize + 1] with threshold 0.5; its world and
    its polygon grid have that side, every cell (x,y,z) of the polygon grid
    with x,y,z <= side - 2 holds the polygon of the cube at (x,y,z) of the
    world, and the other cells hold the empty list. *)
Theorem X10_init_builds_a_consistent_visualizer
    (snoise4 : float -> float -> float -> float -> float) (pNoiseSeed : float)
    (worldSizeArg : Z) :
  (0 <= worldSizeArg)%Z ->
  exists self,
    init snoise4 pNoiseSeed worldSizeArg = Some self /\
    worldSize self = (worldSizeArg + 1)%Z /\
    worldThreshold self = 0.5%float /\
    well_formed self /\
    (forall x y z,
       x < Z.to_nat worldSizeArg -> y < Z.to_nat worldSizeArg ->
       z < Z.to_nat worldSizeArg ->
       exists polygon,
         cubePolygon (world self) 0.5 x y z = Some polygon /\
         get3 (polygons self) x y z = Some polygon) /\
    (forall x y z,
       x <= Z.to_nat worldSizeArg -> y <= Z.to_nat worldSizeArg ->
       z <= Z.to_nat worldSizeArg ->
       x = Z.to_nat worldSizeArg \/ y = Z.to_nat worldSizeArg \/
       z = Z.to_nat worldSizeArg ->
       get3 (polygons self) x y z = Some []).
Proof.
  intros Hpos. unfold init.
  set (n := (worldSizeArg + 1)%Z).
  set (self0 := mkVisualizer n (alloc (Z.to_nat n) 0%float) 0.5%float []).
  destruct (calculateWorldValues_spec snoise4 pNoiseSeed self0)
    as (worldMax & worldMin & _ & _ & Hcalc).
  { simpl. lia. }
  { simpl. apply alloc_cubic. }
  rewrite Hcalc. simpl.
  match goal with
  | |- exists self, findPolygons ?s = Some self /\ _ => set (self1 := s)
  end.
  assert (Hwf : well_formed self1).
  { split; simpl; [apply field_cubic|apply alloc_cubic]. }
  destruct (findPolygons_spec self1 Hwf) as (polys & Hrun & Hcub & Hin & Hout).
  simpl in Hrun, Hcub, Hin, Hout.
  eexists. split; [exact Hrun|]. simpl.
  split; [reflexivity|]. split; [reflexivity|].
  split; [split; simpl; [apply field_cubic|exact Hcub]|].
  split.
  - intros x y z Hx Hy Hz. apply Hin; lia.
  - intros x y z Hx Hy Hz Hedge.
    rewrite Hout by lia. apply get3_alloc; lia.
Qed.

Lemma X10_witness :
  (0 <= 2)%Z /\
  exists self,
    init example_noise 0.5 2 = Some self /\
    worldSize self = (2 + 1)%Z /\
    worldThreshold self = 0.5%float /\
    well_formed self /\
    (forall x y z,
       x < Z.to_nat 2 -> y < Z.to_nat 2 -> z < Z.to_nat 2 ->
       exists polygon,
         cubePolygon (world self) 0.5 x y z = Some polygon /\
         get3 (polygons self) x y z = Some polygon) /\
    (forall x y z,
       x <= Z.to_nat 2 -> y <= Z.to_nat 2 -> z <= Z.to_nat 2 ->
       x = Z.to_nat 2 \/ y = Z.to_nat 2 \/ z = Z.to_nat 2 ->
       get3 (polygons self) x y z = Some []).
Proof.
  split; [lia|].
  apply (X10_init_builds_a_consistent_visualizer example_noise 0.5 2). lia.
Defined.

(** * The mouse wheel *)

(** X11: a [MOUSEBUTTONDOWN] event on a well-formed visualizer never
    raises; it keeps the world; after button 5 the threshold is not greater
    than 1, after button 4 it is not less than 0, and any other button
    leaves it as it was; in every case each cell (x,y,z) of the polygon grid
    with x,y,z <= worldSize-2 then holds the polygon of its cube for the new
    threshold. *)
Theorem X11_mouse_wheel (button : Z) (self : Visualizer) :
  well_formed self ->
  exists self',
    mouseButtonDown button self = Some self' /\
    worldSize self' = worldSize self /\
    world self' = world self /\
    (button = 5%Z -> gt (worldThreshold self') 1 = false) /\
    (button = 4%Z -> PrimFloat.ltb (worldThreshold self') 0 = false) /\
    (button <> 4%Z -> button <> 5%Z ->
     worldThreshold self' = worldThreshold self) /\
    (forall x y z,
       x < Z.to_nat (worldSize self) - 1 ->
       y < Z.to_nat (worldSize self) - 1 ->
       z < Z.to_nat (worldSize self) - 1 ->
       exists polygon,
         cubePolygon (world self) (worldThreshold self') x y z = Some polygon /\
         get3 (polygons self') x y z = Some polygon).
Proof.
  intros Hwf. unfold mouseButtonDown.
  match goal with
  | |- exists self', findPolygons (mkVisualizer _ _ ?t _) = _ /\ _ =>
      set (t4 := t)
  end.
  assert (Hwf' : well_formed
            (mkVisualizer (worldSize self) (world self) t4 (polygons self)))
    by exact Hwf.
  destruct (findPolygons_spec _ Hwf') as (polys & Hrun & _ & Hin & _).
  simpl in Hrun, Hin.
  eexists. split; [exact Hrun|]. simpl.
  split; [reflexivity|]. split; [reflexivity|].
  split; [|split; [|split; [|exact Hin]]].
  - intros ->. subst t4. simpl.
    match goal with
    | |- gt (if ?c then _ else _) _ = false => destruct c eqn:E
    end; [vm_compute; reflexivity|exact E].
  - intros ->. subst t4. simpl.
    match goal with
    | |- PrimFloat.ltb (if ?c then _ else _) _ = false => destruct c eqn:E
    end; [vm_compute; reflexivity|exact E].
  - intros H4 H5. subst t4.
    apply Z.eqb_neq in H4, H5. rewrite H4, H5. reflexivity.
Qed.

Lemma X11_witness :
  well_formed example_visualizer /\
  exists self',
    mouseButtonDown 5 example_visualizer = Some self' /\
    worldSize self' = worldSize example_visualizer /\
    world self' = world example_visualizer /\
    (5%Z = 5%Z -> gt (worldThreshold self') 1 = false) /\
    (5%Z = 4%Z -> PrimFloat.ltb (worldThreshold self') 0 = false) /\
    (5%Z <> 4%Z -> 5%Z <> 5%Z ->
     worldThreshold self' = worldThreshold example_visualizer) /\
    (forall x y z,
       x < Z.to_nat (worldSize example_visualizer) - 1 ->
       y < Z.to_nat (worldSize example_visualizer) - 1 ->
       z < Z.to_nat (worldSize example_visualizer) - 1 ->
       exists polygon,
         cubePolygon (world example_visualizer) (worldThreshold self') x y z
         = Some polygon /\
         get3 (polygons self') x y z = Some polygon).
Proof.
  split; [split; (split; [reflexivity|repeat constructor])|].
  apply (X11_mouse_wheel 5 example_visualizer).
  split; (split; [reflexivity|repeat constructor]).
Defined.

(** * The debug timer *)

Lemma logs_state (calls : list (float * String.string)) (d : debugger) :
  fold_left (fun d c => log (fst c) (snd c) d) calls d
  = mkDebugger (times d ++ map fst calls) (tags d ++ map snd calls).
Proof.
  revert d. induction calls as [|c calls IH]; intros d; simpl.
  - rewrite !app_nil_r. destruct d; reflexivity.
  - rewrite IH. simpl. rewrite <- !app_assoc. reflexivity.
Qed.

Lemma report_loop (rest : list (float * String.string)) :
  forall (done : list (float * String.string)) (c0 : float * String.string),
  mapM (fun id =>
          t1 <- nth_error (map fst (done ++ c0 :: rest)) id ;;
          t0 <- nth_error (map fst (done ++ c0 :: rest)) (id - 1) ;;
          tag <- nth_error (map snd (done ++ c0 :: rest)) id ;;
          Some (Task tag (PrimFloat.sub t1 t0)))
       (seq (S (length done)) (length rest))
  = Some (tasks_of (c0 :: rest)).
Proof.
  induction rest as [|c1 rest IH]; intros done c0; [reflexivity|].
  cbn [length seq mapM].
  replace (S (length done) - 1) with (length done) by lia.
  rewrite !nth_error_map.
  rewrite (nth_error_app2 done (c0 :: c1 :: rest) (n := S (length done)))
    by lia.
  rewrite (nth_error_app2 done (c0 :: c1 :: rest) (n := length done)) by lia.
  replace (S (length done) - length done) with 1 by lia.
  rewrite Nat.sub_diag. cbn [nth_error option_map bind].
  specialize (IH (done ++ [c0]) c1).
  rewrite <- app_assoc in IH. cbn [app] in IH.
  rewrite length_app in IH. cbn [length] in IH.
  replace (length done + 1) with (S (length done)) in IH by lia.
  rewrite IH. reflexivity.
Qed.

(** X12: after any sequence of [log] calls on a new debugger, [report]
    does not raise; after the rule it prints one line for every call but
    the first, in order, with the tag of the call and the time since the
    call before it (the tag of the first call is not printed), and it
    leaves the debugger empty. *)
Theorem X12_report_after_logs (calls : list (float * String.string)) :
  report (fold_left (fun d c => log (fst c) (snd c) d) calls debugger_init)
  = Some (Rule :: tasks_of calls, debugger_init).
Proof.
  rewrite logs_state. unfold report, debugger_init. cbn [times tags app].
  destruct calls as [|c0 rest]; [reflexivity|].
  rewrite length_map. cbn [length].
  replace (S (length rest) - 1) with (length rest) by lia.
  pose proof (report_loop rest [] c0) as H. cbn [app length] in H.
  cbv zeta. rewrite H. reflexivity.
Qed.

(** * The command line *)

Lemma even_adjust (k : Z) :
  Z.even (if negb (k mod 2 =? 0)%Z then k + 1 else k)%Z = true.
Proof.
  rewrite Zmod_even. destruct (Z.even k) eqn:E; simpl; [exact E|].
  rewrite Z.add_1_r, Z.even_succ, <- Z.negb_even, E. reflexivity.
Qed.

Ltac option_case opt lit :=
  destruct (String.eqb_spec opt lit) as [->|_].

Lemma option_step_inv (int : String.string -> option Z)
    (str_is : String.string -> String.string -> bool)
    (c : config) (opt arg : String.string) (c1 : config) :
  option_step int str_is c (opt, arg) = Start c1 ->
  (Z.even (cfg_worldSize c) = true -> Z.even (cfg_worldSize c1) = true) /\
  cfg_debug c1 = is_debug_option opt || cfg_debug c.
Proof.
  unfold option_step, is_debug_option.
  destruct (str_in opt "-h"%string) eqn:Hh; [discriminate|].
  option_case opt "-w"%string.
  { cbn. destruct (int arg); [|discriminate]. intros [= <-]. cbn.
    split; [intros _; apply even_adjust|reflexivity]. }
  option_case opt "--worldSize"%string.
  { cbn. destruct (int arg); [|discriminate]. intros [= <-]. cbn.
    split; [intros _; apply even_adjust|reflexivity]. }
  option_case opt "-r"%string.
  { cbn. destruct (int arg); [|discriminate]. intros [= <-]. cbn.
    split; [tauto|reflexivity]. }
  option_case opt "--viewRadius"%string.
  { cbn. destruct (int arg); [|discriminate]. intros [= <-]. cbn.
    split; [tauto|reflexivity]. }
  option_case opt "-d"%string.
  { cbn. intros [= <-]. cbn. split; [tauto|reflexivity]. }
  option_case opt "--debug"%string.
  { cbn. intros [= <-]. cbn. split; [tauto|reflexivity]. }
  option_case opt "-x"%string.
  { cbn. destruct (int arg); [|discriminate]. intros [= <-]. cbn.
    split; [tauto|reflexivity]. }
  option_case opt "--screenWidth"%string.
  { cbn. destruct (int arg); [|discriminate]. intros [= <-]. cbn.
    split; [tauto|reflexivity]. }
  option_case opt "-y"%string.
  { cbn. destruct (int arg); [|discriminate]. intros [= <-]. cbn.
    split; [tauto|reflexivity]. }
  option_case opt "--screenHeight"%string.
  { cbn. destruct (int arg); [|discriminate]. intros [= <-]. cbn.
    split; [tauto|reflexivity]. }
  cbn. intros [= <-]. split; [tauto|reflexivity].
Qed.

Lemma option_loop_inv (int : String.string -> option Z)
    (str_is : String.string -> String.string -> bool)
    (opts : list (String.string * String.string)) :
  forall c c',
  option_loop int str_is opts c = Start c' ->
  (Z.even (cfg_worldSize c) = true -> Z.even (cfg_worldSize c') = true) /\
  cfg_debug c' = existsb (fun oa => is_debug_option (fst oa)) opts
                 || cfg_debug c.
Proof.
  induction opts as [|[opt arg] rest IH]; intros c c' H;
    cbn [option_loop] in H.
  - injection H as <-. split; [tauto|reflexivity].
  - destruct (option_step int str_is c (opt, arg)) as [c1| |] eqn:E;
      try discriminate.
    destruct (option_step_inv _ _ _ _ _ _ E) as [He Hd].
    destruct (IH c1 c' H) as [He' Hd'].
    split; [tauto|]. rewrite Hd', Hd. simpl.
    destruct (is_debug_option opt),
      (existsb (fun oa => is_debug_option (fst oa)) rest), (cfg_debug c);
      reflexivity.
Qed.

(** X13: whatever the options are, the [worldSize] that [main] passes to
    the constructor is even: an odd [-w] argument, also a negative one, is
    raised by 1. *)
Theorem X13_main_worldSize_is_even (int : String.string -> option Z)
    (str_is : String.string -> String.string -> bool)
    (opts : list (String.string * String.string)) (c : config) :
  main_options int str_is opts = Start c ->
  Z.even (cfg_worldSize c) = true.
Proof.
  intros H. apply (option_loop_inv int str_is opts defaults c H). reflexivity.
Qed.

Lemma X13_witness :
  main_options example_int (fun _ _ => false)
    [("-w", "7"); ("-r", "15")]%string
  = Start (mkConfig 800 600 8 false 15) /\
  Z.even (cfg_worldSize (mkConfig 800 600 8 false 15)) = true.
Proof.
  split; [vm_compute; reflexivity|].
  apply (X13_main_worldSize_is_even example_int (fun _ _ => false)
           [("-w", "7"); ("-r", "15")]%string).
  vm_compute. reflexivity.
Defined.

(** X14: the [debug] argument of the constructor is [True] exactly when a
    [-d] or [--debug] option is given, whatever the argument of that
    option is: [-d False] and [-d false] switch the timer on as well. *)
Theorem X14_main_debug_ignores_its_argument
    (int : String.string -> option Z)
    (str_is : String.string -> String.string -> bool)
    (opts : list (String.string * String.string)) (c : config) :
  main_options int str_is opts = Start c ->
  cfg_debug c = existsb (fun oa => is_debug_option (fst oa)) opts.
Proof.
  intros H. destruct (option_loop_inv int str_is opts defaults c H) as [_ Hd].
  rewrite Hd. simpl. apply orb_false_r.
Qed.

Lemma X14_witness :
  main_options example_int (fun _ _ => true) [("-d", "False")]%string
  = Start (mkConfig 800 600 10 true 20) /\
  cfg_debug (mkConfig 800 600 10 true 20)
  = existsb (fun oa => is_debug_option (fst oa)) [("-d", "False")]%string.
Proof.
  split; [vm_compute; reflexivity|].
  apply (X14_main_debug_ignores_its_argument example_int (fun _ _ => true)
           [("-d", "False")]%string).
  vm_compute. reflexivity.
Defined.

(** * The keyboard *)

(** A call while the timer runs: the world and the polygons are kept, the
    timer goes down by one. *)
Lemma keyboardController_waiting
    (snoise4 : float -> float -> float -> float -> float)
    (np_sin np_cos : float -> float) (k : keys) (seed : float) (self : App) :
  seedWorldTimer self <> 0%Z ->
  exists self',
    keyboardController snoise4 np_sin np_cos k seed self = Some self' /\
    core self' = core self /\
    FPS self' = FPS self /\
    seedWorldTimer self' = (seedWorldTimer self - 1)%Z.
Proof.
  intros Ht. apply Z.eqb_neq in Ht. unfold keyboardController.
  rewrite Ht.
  assert (E : (if K_r k
               then Some (seedWorldTimer self, core self)
               else Some (seedWorldTimer self, core self))
              = Some (seedWorldTimer self, core self))
    by (destruct (K_r k); reflexivity).
  rewrite E. cbn [bind]. rewrite Ht.
  destruct (K_p k), (K_o k), (K_i k); eexists; repeat split; reflexivity.
Qed.

Lemma keyboardFrames_waiting
    (snoise4 : float -> float -> float -> float -> float)
    (np_sin np_cos : float -> float) (inputs : list (keys * float)) :
  forall self : App,
  length inputs <= Z.to_nat (seedWorldTimer self) ->
  exists self',
    keyboardFrames snoise4 np_sin np_cos inputs self = Some self' /\
    core self' = core self /\
    seedWorldTimer self'
    = (seedWorldTimer self - Z.of_nat (length inputs))%Z.
Proof.
  induction inputs as [|[k seed] rest IH]; intros self Hlen.
  - exists self. simpl. repeat split. lia.
  - cbn [length] in Hlen.
    destruct (keyboardController_waiting snoise4 np_sin np_cos k seed self)
      as (self1 & Hrun & Hcore & _ & Htimer); [lia|].
    destruct (IH self1) as (self' & Hrun' & Hcore' & Htimer'); [lia|].
    exists self'. cbn [keyboardFrames]. rewrite Hrun. cbn [bind].
    split; [exact Hrun'|]. split; [congruence|].
    rewrite Htimer', Htimer. cbn [length]. lia.
Qed.

(** X15: while [seedWorldTimer] is k > 0, the next k calls of
    [keyboardController] cannot build a new world: whatever keys are held
    (R too), they return, keep the world, the threshold and the polygons,
    and count the timer down by one each. *)
Theorem X15_no_new_world_while_the_timer_runs
    (snoise4 : float -> float -> float -> float -> float)
    (np_sin np_cos : float -> float) (inputs : list (keys * float))
    (self : App) :
  length inputs <= Z.to_nat (seedWorldTimer self) ->
  exists self',
    keyboardFrames snoise4 np_sin np_cos inputs self = Some self' /\
    core self' = core self /\
    seedWorldTimer self'
    = (seedWorldTimer self - Z.of_nat (length inputs))%Z.
Proof. apply keyboardFrames_waiting. Qed.

Lemma X15_witness :
  length [(all_keys, 0.5%float); (all_keys, 0.25%float)]
  <= Z.to_nat (seedWorldTimer example_app) /\
  exists self',
    keyboardFrames example_noise PrimFloat.sqrt PrimFloat.abs
      [(all_keys, 0.5%float); (all_keys, 0.25%float)] example_app
    = Some self' /\
    core self' = core example_app /\
    seedWorldTimer self'
    = (seedWorldTimer example_app
       - Z.of_nat (length [(all_keys, 0.5%float); (all_keys, 0.25%float)]))%Z.
Proof.
  split; [simpl; lia|].
  apply (X15_no_new_world_while_the_timer_runs
           example_noise PrimFloat.sqrt PrimFloat.abs
           [(all_keys, 0.5%float); (all_keys, 0.25%float)] example_app).
  simpl; lia.
Defined.

(** X16: a call with R held and the timer at 0, at 30 frames per second, on
    a well-formed visualizer of side >= 1: it returns, the world is the
    normalised noise field for the new seed, every cell (x,y,z) of the
    polygon grid with x,y,z <= worldSize-2 holds the polygon of its cube in
    the new world, and the timer is left at 6, so that the 6 following
    calls keep this world whatever keys are held. *)
Theorem X16_R_builds_a_new_world
    (snoise4 : float -> float -> float -> float -> float)
    (np_sin np_cos : float -> float) (k : keys) (seed : float) (self : App) :
  K_r k = true -> seedWorldTimer self = 0%Z -> FPS self = 30%Z ->
  0 < Z.to_nat (worldSize (core self)) -> well_formed (core self) ->
  exists self' worldMax worldMin,
    keyboardController snoise4 np_sin np_cos k seed self = Some self' /\
    seedWorldTimer self' = 6%Z /\
    worldSize (core self') = worldSize (core self) /\
    worldThreshold (core self') = worldThreshold (core self) /\
    world (core self')
    = field (Z.to_nat (worldSize (core self)))
        (fun x y z =>
           PrimFloat.div
             (PrimFloat.sub
                (noiseSample snoise4 seed (worldSize (core self)) x y z)
                worldMin)
             (PrimFloat.sub worldMax worldMin)) /\
    (forall x y z,
       x < Z.to_nat (worldSize (core self)) - 1 ->
       y < Z.to_nat (worldSize (core self)) - 1 ->
       z < Z.to_nat (worldSize (core self)) - 1 ->
       exists polygon,
         cubePolygon (world (core self')) (worldThreshold (core self)) x y z
         = Some polygon /\
         get3 (polygons (core self')) x y z = Some polygon) /\
    (forall inputs, length inputs <= 6 ->
       exists self'',
         keyboardFrames snoise4 np_sin np_cos inputs self' = Some self'' /\
         core self'' = core self').
Proof.
  intros Hr Ht Hfps Hn [Hw Hp].
  destruct (calculateWorldValues_spec snoise4 seed (core self) Hn Hw)
    as (worldMax & worldMin & _ & _ & Hcalc).
  match type of Hcalc with _ = Some ?c => set (c1 := c) in * end.
  assert (Hwf1 : well_formed c1) by (split; [apply field_cubic|exact Hp]).
  destruct (findPolygons_spec c1 Hwf1) as (polys & Hrun & Hcub & Hin & _).
  assert (Hstep : exists self',
            keyboardController snoise4 np_sin np_cos k seed self = Some self' /\
            seedWorldTimer self' = 6%Z /\
            core self' = mkVisualizer (worldSize c1) (world c1)
                           (worldThreshold c1) polys).
  { unfold keyboardController. rewrite Hr, Ht. cbn [Z.eqb].
    rewrite Hcalc. cbn [bind]. rewrite Hrun. cbn [bind]. rewrite Hfps.
    cbn [Z.quot Z.quotrem Z.eqb].
    destruct (K_p k), (K_o k), (K_i k); eexists; repeat split; reflexivity. }
  destruct Hstep as (self' & Hk & Htimer & Hcore).
  exists self', worldMax, worldMin.
  split; [exact Hk|]. split; [exact Htimer|]. rewrite Hcore. cbn.
  repeat split; try reflexivity.
  - exact Hin.
  - intros inputs Hlen.
    destruct (keyboardFrames_waiting snoise4 np_sin np_cos inputs self')
      as (self'' & Hrun'' & Hcore'' & _); [rewrite Htimer; lia|].
    exists self''. split; [exact Hrun''|]. rewrite Hcore'', Hcore. reflexivity.
Qed.

Lemma X16_witness :
  exists self',
    keyboardController example_noise PrimFloat.sqrt PrimFloat.abs
      all_keys 0.5 example_app_ready = Some self' /\
    seedWorldTimer self' = 6%Z /\
    forall inputs, length inputs <= 6 ->
      exists self'',
        keyboardFrames example_noise PrimFloat.sqrt PrimFloat.abs
          inputs self' = Some self'' /\
        core self'' = core self'.
Proof.
  destruct (X16_R_builds_a_new_world
              example_noise PrimFloat.sqrt PrimFloat.abs
              all_keys 0.5 example_app_ready)
    as (self' & _ & _ & Hrun & Htimer & _ & _ & _ & _ & Hkeep).
  - reflexivity.
  - reflexivity.
  - reflexivity.
  - simpl; lia.
  - split; (split; [reflexivity|repeat constructor]).
  - exists self'. split; [exact Hrun|]. split; [exact Htimer|exact Hkeep].
Defined.

(** X17: a call of [keyboardController] that returns keeps the distance r
    of the camera; when S is held it leaves the angle phi not greater than
    179, and when W is held and S is not it leaves phi not less than 1;
    the cartesian position is the one of the new polar position. *)
Theorem X17_camera_angle_is_clamped
    (snoise4 : float -> float -> float -> float -> float)
    (np_sin np_cos : float -> float) (k : keys) (seed : float)
    (self self' : App) :
  keyboardController snoise4 np_sin np_cos k seed self = Some self' ->
  fst (fst (cameraPolar self')) = fst (fst (cameraPolar self)) /\
  (K_s k = true ->
   gt (snd (cameraPolar self')) (float_of_int 179) = false) /\
  (K_w k = true -> K_s k = false ->
   PrimFloat.ltb (snd (cameraPolar self')) (float_of_int 1) = false) /\
  cameraPosition self'
  = polarCameraToCartesian np_sin np_cos (cameraPolar self').
Proof.
  unfold keyboardController. intros H.
  match type of H with
  | bind ?m _ = _ => destruct m as [[timer c]|]; [|discriminate]
  end.
  cbn [bind] in H.
  assert (Hpolar : cameraPolar self' = moveCamera k (dt self) (cameraPolar self)
                   /\ cameraPosition self'
                      = polarCameraToCartesian np_sin np_cos
                          (moveCamera k (dt self) (cameraPolar self))).
  { destruct (K_p k), (K_o k), (K_i k); injection H as <-; split; reflexivity. }
  destruct Hpolar as [-> ->]. clear H.
  destruct (cameraPolar self) as [[r theta] phi]. unfold moveCamera.
  split; [reflexivity|]. split; [|split; [|reflexivity]].
  - intros ->. cbn [snd].
    match goal with
    | |- gt (if ?b then _ else _) _ = false => destruct b eqn:E
    end; [apply gt_irrefl|exact E].
  - intros -> ->. cbn [snd].
    match goal with
    | |- PrimFloat.ltb (if ?b then _ else _) _ = false => destruct b eqn:E
    end; [vm_compute; reflexivity|exact E].
Qed.

Lemma X17_witness :
  exists self',
    keyboardController example_noise PrimFloat.sqrt PrimFloat.abs
      all_keys 0.5 example_app = Some self' /\
    fst (fst (cameraPolar self')) = fst (fst (cameraPolar example_app)) /\
    (K_s all_keys = true ->
     gt (snd (cameraPolar self')) (float_of_int 179) = false).
Proof.
  eexists. split; [vm_compute; reflexivity|].
  match goal with
  | |- context [cameraPolar ?s] =>
      destruct (X17_camera_angle_is_clamped
                  example_noise PrimFloat.sqrt PrimFloat.abs
                  all_keys 0.5 example_app s) as (Hr & Hs & _)
  end.
  - vm_compute. reflexivity.
  - split; [exact Hr|exact Hs].
Defined.

(** * Constant worlds *)

(** A NaN is not greater than any number. *)
Lemma nan_not_gt (q t : float) : PrimFloat.is_nan q = true -> gt q t = false.
Proof.
  unfold PrimFloat.is_nan, gt. rewrite eqb_spec, ltb_spec.
  unfold SFeqb, SFltb.
  destruct (Prim2SF q) as [s|s| |s m e]; simpl.
  - discriminate.
  - destruct s; discriminate.
  - intros _. destruct (Prim2SF t); reflexivity.
  - destruct s; rewrite Z.compare_refl, Pos.compare_cont_refl; discriminate.
Qed.

(** X18: the normalisation of a world of side >= 1 whose samples are all
    equal does not raise: it returns a world of the same side in which
    every sample is a NaN, which is not greater than any threshold. *)
Theorem X18_constant_world_normalises_to_nan
    (n : nat) (w : grid float) (c : float) :
  0 < n -> cubic n w -> (forall v, In v (samples w) -> v = c) ->
  exists w',
    normalizeWorld (Z.of_nat n) w = Some w' /\
    cubic n w' /\
    forall x y z, x < n -> y < n -> z < n ->
      exists q, get3 w' x y z = Some q /\
                PrimFloat.is_nan q = true /\
                forall threshold, gt q threshold = false.
Proof.
  intros Hn Hc Hall.
  destruct (normalizeWorld_constant n w c Hn Hc Hall) as (w' & Hrun & Hc' & Hq).
  exists w'. split; [exact Hrun|]. split; [exact Hc'|].
  intros x y z Hx Hy Hz. destruct (Hq x y z Hx Hy Hz) as (q & Hg & Hnan).
  exists q. split; [exact Hg|]. split; [exact Hnan|].
  intros threshold. apply nan_not_gt, Hnan.
Qed.

Lemma X18_witness :
  exists w',
    normalizeWorld (Z.of_nat 2) (alloc 2 0.25%float) = Some w' /\
    cubic 2 w' /\
    forall x y z, x < 2 -> y < 2 -> z < 2 ->
      exists q, get3 w' x y z = Some q /\
                PrimFloat.is_nan q = true /\
                forall threshold, gt q threshold = false.
Proof.
  apply (X18_constant_world_normalises_to_nan 2 (alloc 2 0.25%float) 0.25).
  - lia.
  - split; [reflexivity|repeat constructor].
  - intros v Hv. vm_compute in Hv.
    repeat (destruct Hv as [<-|Hv]; [reflexivity|]). contradiction.
Defined.

(** * [marchingCubesPolygons] on the store *)

Lemma set_nth_app2 {A : Type} (l0 l : list A) (k : nat) (v : A) :
  set_nth (l0 ++ l) (length l0 + k) v = option_map (app l0) (set_nth l k v).
Proof.
  induction l0 as [|a l0 IH]; simpl.
  - destruct (set_nth l k v); reflexivity.
  - rewrite IH. destruct (set_nth l k v); reflexivity.
Qed.

Lemma load_during_old (h0 : Store.heap) (active : list edge) (pv : list point)
    (a : nat) :
  a < length h0 -> Store.load a (Store.during h0 active pv) = Store.load a h0.
Proof. intros Ha. unfold Store.load, Store.during. apply nth_error_app1, Ha. Qed.

Lemma load_during_new (h0 : Store.heap) (active : list edge) (pv : list point)
    (k : nat) :
  Store.load (length h0 + k) (Store.during h0 active pv)
  = nth_error [Store.Corners VERTICES; Store.Edges EDGES;
               Store.Edges active; Store.Points pv] k.
Proof.
  unfold Store.load, Store.during. rewrite nth_error_app2 by lia.
  f_equal. lia.
Qed.

Lemma floats_at_during (h0 : Store.heap) (active : list edge)
    (pv : list point) (values : nat) (vals : list float) :
  Store.floats_at values h0 = Some vals ->
  Store.floats_at values (Store.during h0 active pv) = Some vals.
Proof.
  unfold Store.floats_at. intros H.
  destruct (Store.load values h0) as [o|] eqn:E; [|discriminate].
  rewrite load_during_old, E; [exact H|].
  apply nth_error_Some. unfold Store.load in E. congruence.
Qed.

(** The first loop on the store is the first loop of the function. *)
Lemma store_active_loop (h0 : Store.heap) (values : nat) (vals : list float)
    (threshold : float) (pv : list point) (edges : list edge) :
  Store.floats_at values h0 = Some vals ->
  forall active,
  foldM (Store.activeStep values (length h0 + 2) threshold) edges
        (Store.during h0 active pv)
  = (tl <- activeEdgesOf vals threshold edges ;;
     Some (Store.during h0 (active ++ tl) pv)).
Proof.
  intros Hv. induction edges as [|e rest IH]; intros active.
  - simpl. rewrite app_nil_r. reflexivity.
  - cbn [foldM activeEdgesOf]. unfold Store.activeStep at 1.
    rewrite (floats_at_during h0 active pv values vals Hv). cbn [bind].
    destruct (nth_error vals (fst e)) as [v0|]; [|reflexivity]. cbn [bind].
    destruct (nth_error vals (snd e)) as [v1|]; [|reflexivity]. cbn [bind].
    destruct (bool_ne (gt v0 threshold) (gt v1 threshold)).
    + unfold Store.append_edge, Store.edges_at.
      rewrite (load_during_new h0 active pv 2). cbn [nth_error bind].
      unfold Store.during at 1. rewrite set_nth_app2. cbn [set_nth bind option_map].
      fold (Store.during h0 (active ++ [e]) pv). rewrite IH.
      destruct (activeEdgesOf vals threshold rest) as [tl|]; [|reflexivity].
      cbn [bind]. rewrite <- app_assoc. reflexivity.
    + cbn [bind]. rewrite IH.
      destruct (activeEdgesOf vals threshold rest) as [tl|]; reflexivity.
Qed.

Lemma VERTICES_nth (i : nat) : i < 8 -> nth_error VERTICES i = Some (vertex i).
Proof.
  intros Hi. unfold vertex.
  do 8 (destruct i as [|i]; [reflexivity|]). lia.
Qed.

Lemma zip_midpoint_vertex (e : edge) :
  Store.zip_midpoint (vertex (fst e)) (vertex (snd e)) = midpoint e.
Proof.
  unfold Store.zip_midpoint, midpoint.
  destruct (vertex (fst e)) as [[a0 a1] a2], (vertex (snd e)) as [[b0 b1] b2].
  reflexivity.
Qed.

(** The second loop appends the midpoints. *)
Lemma store_midpoint_loop (h0 : Store.heap) (active : list edge)
    (todo : list edge) :
  Forall (fun e : edge => fst e < 8 /\ snd e < 8) todo ->
  forall pv,
  foldM (Store.midpointStep (length h0) (length h0 + 3)) todo
        (Store.during h0 active pv)
  = Some (Store.during h0 active (pv ++ map midpoint todo)).
Proof.
  induction 1 as [|e rest [H0 H1] _ IH]; intros pv.
  - simpl. rewrite app_nil_r. reflexivity.
  - cbn [foldM map]. unfold Store.midpointStep at 1, Store.corners_at.
    replace (length h0) with (length h0 + 0) at 1 by lia.
    rewrite (load_during_new h0 active pv 0). cbn [nth_error bind].
    rewrite (VERTICES_nth _ H0), (VERTICES_nth _ H1). cbn [bind].
    rewrite zip_midpoint_vertex.
    unfold Store.append_point, Store.points_at.
    rewrite (load_during_new h0 active pv 3). cbn [nth_error bind].
    unfold Store.during at 1. rewrite set_nth_app2.
    cbn [set_nth bind option_map].
    fold (Store.during h0 active (pv ++ [midpoint e])). rewrite IH.
    rewrite <- app_assoc. reflexivity.
Qed.

(** The third loop on the store is the third loop of the function. *)
Lemma store_sort_loop (h0 : Store.heap) (active : list edge)
    (idxs : list nat) :
  forall pv,
  foldM (Store.sortStep (length h0 + 3)) idxs (Store.during h0 active pv)
  = (pv' <- foldM sortStep idxs pv ;; Some (Store.during h0 active pv')).
Proof.
  induction idxs as [|i idxs IH]; intros pv; [reflexivity|].
  cbn [foldM]. unfold Store.sortStep at 1, Store.points_at, sortStep at 1.
  rewrite (load_during_new h0 active pv 3). cbn [nth_error bind].
  destruct (nth_error pv i) as [a|]; [|reflexivity]. cbn [bind].
  unfold Store.during at 1. rewrite set_nth_app2.
  cbn [set_nth bind option_map].
  match goal with
  | |- context [h0 ++ [_; _; _; Store.Points ?l]] =>
      fold (Store.during h0 active l)
  end.
  apply IH.
Qed.

Lemma activeEdgesOf_Forall (P : edge -> Prop) (vals : list float)
    (threshold : float) (edges : list edge) :
  Forall P edges ->
  forall tl, activeEdgesOf vals threshold edges = Some tl -> Forall P tl.
Proof.
  induction 1 as [|e rest He _ IH]; intros tl H; simpl in H.
  - injection H as <-. constructor.
  - destruct (nth_error vals (fst e)) as [v0|]; [|discriminate].
    destruct (nth_error vals (snd e)) as [v1|]; [|discriminate].
    simpl in H.
    destruct (activeEdgesOf vals threshold rest) as [tl'|]; [|discriminate].
    simpl in H. injection H as <-.
    destruct (bool_ne _ _); [constructor|]; auto.
Qed.

(** The function on the store computes what the function computes: it
    returns the address of a new list that holds the polygon, and the heap
    of the call followed by the four lists of the function. *)
Lemma store_marchingCubesPolygons (h0 : Store.heap) (values : nat)
    (vals : list float) (threshold : float) :
  Store.floats_at values h0 = Some vals ->
  Store.marchingCubesPolygons values threshold h0
  = (active <- activeEdgesOf vals threshold EDGES ;;
     polygon <- foldM sortStep (range (length (map midpoint active)))
                  (map midpoint active) ;;
     Some (length h0 + 3, Store.during h0 active polygon)).
Proof.
  intros Hv. unfold Store.marchingCubesPolygons, Store.new.
  rewrite !length_app. cbn [length].
  replace (length h0 + 1 + 1 + 1) with (length h0 + 3) by lia.
  replace (length h0 + 1 + 1) with (length h0 + 2) by lia.
  rewrite <- !app_assoc. cbn [app]. fold (Store.during h0 [] []).
  unfold Store.edges_at. rewrite (load_during_new h0 [] [] 1).
  cbn [nth_error bind].
  rewrite (store_active_loop h0 values vals threshold [] EDGES Hv []).
  destruct (activeEdgesOf vals threshold EDGES) as [active|] eqn:Ea;
    [|reflexivity].
  cbn [bind app]. rewrite (load_during_new h0 active [] 2).
  cbn [nth_error bind].
  rewrite (store_midpoint_loop h0 active active
             (activeEdgesOf_Forall _ vals threshold EDGES EDGES_in_range
                active Ea) []).
  cbn [bind app]. unfold Store.points_at.
  rewrite (load_during_new h0 active (map midpoint active) 3).
  cbn [nth_error bind].
  rewrite store_sort_loop.
  destruct (foldM sortStep (range (length (map midpoint active)))
              (map midpoint active)); reflexivity.
Qed.

Lemma floats_at_valid (h : Store.heap) (values : nat) (vals : list float) :
  Store.floats_at values h = Some vals -> values < length h.
Proof.
  unfold Store.floats_at, Store.load. intros H.
  apply nth_error_Some. destruct (nth_error h values); [discriminate|].
  discriminate H.
Qed.

(** C9: the function keeps no state and reads none but its arguments.
    In any two heaps, whatever else they hold (the results of earlier
    calls among it), two calls on lists with the same 8 values and with the
    same threshold return lists with the same vertices in the same order,
    which are the vertices that the function computes from the values
    alone.  A call changes no object that existed before it, the list of
    the caller included, and returns a new list; a further call made after
    the first one, even after the caller has changed the list that the first
    call returned, returns the same vertices in another new list. *)
Theorem C9_no_hidden_state (h1 h2 : Store.heap) (values1 values2 : nat)
    (vals : list float) (threshold : float) :
  length vals = 8 ->
  Store.floats_at values1 h1 = Some vals ->
  Store.floats_at values2 h2 = Some vals ->
  exists polygon p1 h1' p2 h2',
    Store.marchingCubesPolygons values1 threshold h1 = Some (p1, h1') /\
    Store.marchingCubesPolygons values2 threshold h2 = Some (p2, h2') /\
    Store.points_at p1 h1' = Some polygon /\
    Store.points_at p2 h2' = Some polygon /\
    marchingCubesPolygons vals threshold = Some polygon /\
    (forall a, a < length h1 -> Store.load a h1' = Store.load a h1) /\
    (forall a, a < length h2 -> Store.load a h2' = Store.load a h2) /\
    length h1 <= p1 /\ length h2 <= p2 /\
    (forall changed h1m,
       set_nth h1' p1 (Store.Points changed) = Some h1m ->
       exists p3 h3,
         Store.marchingCubesPolygons values1 threshold h1m = Some (p3, h3) /\
         Store.points_at p3 h3 = Some polygon /\
         p3 <> p1).
Proof.
  intros Hlen Hv1 Hv2.
  pose proof (marchingCubesPolygons_eq vals threshold Hlen) as Hpure.
  unfold marchingCubesPolygons in Hpure.
  destruct (activeEdgesOf vals threshold EDGES) as [active|] eqn:Ea;
    [|discriminate].
  cbn [bind] in Hpure. cbv zeta in Hpure.
  set (polygon := greedy_chain
                    (map midpoint (filter (straddles vals threshold) EDGES)))
    in *.
  assert (Hcall : forall h values,
            Store.floats_at values h = Some vals ->
            Store.marchingCubesPolygons values threshold h
            = Some (length h + 3, Store.during h active polygon)).
  { intros h values Hv.
    rewrite (store_marchingCubesPolygons h values vals threshold Hv), Ea.
    cbn [bind]. rewrite Hpure. reflexivity. }
  assert (Hres : forall h, Store.points_at (length h + 3)
                             (Store.during h active polygon) = Some polygon).
  { intros h. unfold Store.points_at. rewrite load_during_new. reflexivity. }
  exists polygon, (length h1 + 3), (Store.during h1 active polygon),
    (length h2 + 3), (Store.during h2 active polygon).
  split; [apply Hcall, Hv1|]. split; [apply Hcall, Hv2|].
  split; [apply Hres|]. split; [apply Hres|].
  split; [apply marchingCubesPolygons_eq, Hlen|].
  split; [intros a Ha; apply load_during_old, Ha|].
  split; [intros a Ha; apply load_during_old, Ha|].
  split; [lia|]. split; [lia|].
  intros changed h1m Hset.
  pose proof (floats_at_valid h1 values1 vals Hv1) as Hvalid.
  destruct (set_nth_spec _ _ _ _ Hset) as (Hlenm & _ & Hother).
  assert (Hvm : Store.floats_at values1 h1m = Some vals).
  { unfold Store.floats_at, Store.load. rewrite Hother by lia.
    apply (floats_at_during h1 active polygon values1 vals Hv1). }
  exists (length h1m + 3), (Store.during h1m active polygon).
  split; [apply Hcall, Hvm|]. split; [apply Hres|].
  rewrite Hlenm. unfold Store.during. rewrite length_app. simpl. lia.
Qed.

Lemma C9_witness :
  length example_values = 8 /\
  Store.floats_at 0 Store.example_heap = Some example_values /\
  Store.floats_at 2 Store.example_heap_busy = Some example_values /\
  exists polygon p1 h1' p2 h2',
    Store.marchingCubesPolygons 0 0.5 Store.example_heap = Some (p1, h1') /\
    Store.marchingCubesPolygons 2 0.5 Store.example_heap_busy
    = Some (p2, h2') /\
    Store.points_at p1 h1' = Some polygon /\
    Store.points_at p2 h2' = Some polygon /\
    marchingCubesPolygons example_values 0.5 = Some polygon.
Proof.
  split; [reflexivity|]. split; [reflexivity|]. split; [reflexivity|].
  destruct (C9_no_hidden_state Store.example_heap Store.example_heap_busy
              0 2 example_values 0.5 eq_refl eq_refl eq_refl)
    as (polygon & p1 & h1' & p2 & h2' & H1 & H2 & H3 & H4 & H5 & _).
  exists polygon, p1, h1', p2, h2'. repeat split; assumption.
Defined.

(** The call on the busy heap, evaluated: the four lists of the function
    come after the objects that were there, which are unchanged. *)
Example store_call_on_busy_heap :
  Store.marchingCubesPolygons 2 0.5 Store.example_heap_busy
  = Some (7, Store.example_heap_busy
             ++ [Store.Corners VERTICES; Store.Edges EDGES;
                 Store.Edges [(0, 1); (2, 3); (4, 5); (6, 7)];
                 Store.Points [(0.5, 0, 0); (0.5, 1, 0);
                               (0.5, 1, 1); (0.5, 0, 1)]%float]).
Proof. vm_compute. reflexivity. Qed.

(** A list of another kind where the values are expected raises. *)
Example store_call_on_wrong_object :
  Store.marchingCubesPolygons 0 0.5 Store.example_heap_busy = None.
Proof. vm_compute. reflexivity. Qed.
